(** * precise_patterns: the linked container and the pattern registry

    A shallow embedding of [precise_patterns/doubly_linked_list.py] and
    [precise_patterns/base/pattern.py].  Python objects live in a store
    indexed by addresses; an object reference is an address, so two
    references are the same object exactly when the addresses are equal. *)

From stdpp Require Import gmap strings list fin_maps.

Open Scope Z_scope.

(** Outcome of a call: a returned value or a raised exception. *)
Inductive result (E A : Type) : Type :=
  | Ok (a : A)
  | Raise (e : E).
Arguments Ok {E A} a.
Arguments Raise {E A} e.

(** ** doubly_linked_list.py *)
Module DLL.

(** Addresses of [Node] objects. *)
Definition loc := positive.

(** The exceptions of the module.  [IndexError] is what the spec calls
    [EmptyContainer].  [Unallocated] is not a Python exception: it marks a
    call on an address that holds no node, which a Python reference can
    never be. *)
Inductive exn : Type :=
  | IndexError (msg : string)
  | Unallocated.

Section Container.
Context {T : Type}.

(** [class Node]: the three slots. *)
Record Node : Type := mkNode {
  value : T;
  prev : option loc;
  next : option loc
}.

(** [class DoublyLinkedList]: the three slots. *)
Record DoublyLinkedList : Type := mkList {
  _head : option loc;
  _tail : option loc;
  _size : Z
}.

(** The store of node objects and the list object operated on. *)
Record state : Type := mkState {
  heap : gmap loc Node;
  lst : DoublyLinkedList
}.

(** Attribute assignments [n.prev = p] and [n.next = p]. *)
Definition set_prev (n : loc) (p : option loc) (h : gmap loc Node) : gmap loc Node :=
  alter (fun nd => mkNode (value nd) p (next nd)) n h.

Definition set_next (n : loc) (p : option loc) (h : gmap loc Node) : gmap loc Node :=
  alter (fun nd => mkNode (value nd) (prev nd) p) n h.

(** [Node(...)] allocates at an address not in use. *)
Definition new_loc (h : gmap loc Node) : loc := fresh (dom h).

(** [DoublyLinkedList.__init__] *)
Definition init : DoublyLinkedList := mkList None None 0.

(** [__len__] *)
Definition len (s : state) : Z := _size (lst s).

(** The loop shared by [__iter__] and [__reversed__]:
    [while current: yield ...; current = current.link].  A [Node] defines
    neither [__bool__] nor [__len__], so [while current] stops exactly at
    [None].  The generator has no bound of its own: [fuel] bounds the number
    of nodes visited, and the result is [None] when it runs out (or when an
    address holds no node).  [out] is what is recorded at each node. *)
Fixpoint traverse {A : Type} (link : Node -> option loc) (out : loc -> T -> A)
    (fuel : nat) (h : gmap loc Node) (current : option loc)
  : option (list A) :=
  match current with
  | None => Some []
  | Some l =>
      match fuel with
      | O => None
      | S fuel' =>
          match h !! l with
          | None => None
          | Some nd => cons (out l (value nd)) <$> traverse link out fuel' h (link nd)
          end
      end
  end.

(** [__iter__]: the values from [_head] along [next]. *)
Definition iter (fuel : nat) (s : state) : option (list T) :=
  traverse next (fun _ v => v) fuel (heap s) (_head (lst s)).

(** [__reversed__]: the values from [_tail] along [prev]. *)
Definition reversed (fuel : nat) (s : state) : option (list T) :=
  traverse prev (fun _ v => v) fuel (heap s) (_tail (lst s)).

(** The nodes the two traversals visit, in the order visited. *)
Definition walk_next (fuel : nat) (s : state) : option (list loc) :=
  traverse next (fun l _ => l) fuel (heap s) (_head (lst s)).

Definition walk_prev (fuel : nat) (s : state) : option (list loc) :=
  traverse prev (fun l _ => l) fuel (heap s) (_tail (lst s)).

(** [append] *)
Definition append (v : T) (s : state) : loc * state :=
  let d := lst s in
  let node := new_loc (heap s) in
  let h1 := <[node := mkNode v (_tail d) None]> (heap s) in
  match _tail d with
  | Some t =>
      (node, mkState (set_next t (Some node) h1)
                     (mkList (_head d) (Some node) (_size d + 1)))
  | None =>
      (node, mkState h1 (mkList (Some node) (Some node) (_size d + 1)))
  end.

(** [appendleft] *)
Definition appendleft (v : T) (s : state) : loc * state :=
  let d := lst s in
  let node := new_loc (heap s) in
  let h1 := <[node := mkNode v None (_head d)]> (heap s) in
  match _head d with
  | Some hd =>
      (node, mkState (set_prev hd (Some node) h1)
                     (mkList (Some node) (_tail d) (_size d + 1)))
  | None =>
      (node, mkState h1 (mkList (Some node) (Some node) (_size d + 1)))
  end.

(** [insert_after] *)
Definition insert_after (node : loc) (v : T) (s : state)
  : result exn loc * state :=
  let d := lst s in
  match heap s !! node with
  | None => (Raise Unallocated, s)
  | Some nd =>
      let new_node := new_loc (heap s) in
      let h1 := <[new_node := mkNode v (Some node) (next nd)]> (heap s) in
      let '(h2, tl) :=
        match next nd with
        | Some nx => (set_prev nx (Some new_node) h1, _tail d)
        | None => (h1, Some new_node)
        end in
      (Ok new_node,
       mkState (set_next node (Some new_node) h2)
               (mkList (_head d) tl (_size d + 1)))
  end.

(** [insert_before] *)
Definition insert_before (node : loc) (v : T) (s : state)
  : result exn loc * state :=
  let d := lst s in
  match heap s !! node with
  | None => (Raise Unallocated, s)
  | Some nd =>
      let new_node := new_loc (heap s) in
      let h1 := <[new_node := mkNode v (prev nd) (Some node)]> (heap s) in
      let '(h2, hd) :=
        match prev nd with
        | Some pv => (set_next pv (Some new_node) h1, _head d)
        | None => (h1, Some new_node)
        end in
      (Ok new_node,
       mkState (set_prev node (Some new_node) h2)
               (mkList hd (_tail d) (_size d + 1)))
  end.

(** [remove_node] *)
Definition remove_node (node : loc) (s : state) : result exn unit * state :=
  let d := lst s in
  match heap s !! node with
  | None => (Raise Unallocated, s)
  | Some nd =>
      let '(h1, hd) :=
        match prev nd with
        | Some pv => (set_next pv (next nd) (heap s), _head d)
        | None => (heap s, next nd)
        end in
      let '(h2, tl) :=
        match next nd with
        | Some nx => (set_prev nx (prev nd) h1, _tail d)
        | None => (h1, prev nd)
        end in
      (Ok tt,
       mkState (set_next node None (set_prev node None h2))
               (mkList hd tl (_size d - 1)))
  end.

(** [pop] *)
Definition pop (s : state) : result exn T * state :=
  match _tail (lst s) with
  | None => (Raise (IndexError "pop from empty list"), s)
  | Some t =>
      match heap s !! t with
      | None => (Raise Unallocated, s)
      | Some nd =>
          match remove_node t s with
          | (Ok _, s') => (Ok (value nd), s')
          | (Raise e, s') => (Raise e, s')
          end
      end
  end.

(** [popleft] *)
Definition popleft (s : state) : result exn T * state :=
  match _head (lst s) with
  | None => (Raise (IndexError "popleft from empty list"), s)
  | Some hd =>
      match heap s !! hd with
      | None => (Raise Unallocated, s)
      | Some nd =>
          match remove_node hd s with
          | (Ok _, s') => (Ok (value nd), s')
          | (Raise e, s') => (Raise e, s')
          end
      end
  end.

(** [clear] *)
Definition clear (s : state) : state :=
  mkState (heap s) (mkList None None 0).

(** *** The sequence a well-formed list stands for

    [xs] lists the nodes of the chain from head to tail, each with its
    value.  [node_at xs i] is the node at position [i] and
    [node_before xs i] the one just before position [i]. *)
Definition node_at (xs : list (loc * T)) (i : nat) : option loc :=
  fst <$> xs !! i.

Definition node_before (xs : list (loc * T)) (i : nat) : option loc :=
  match i with
  | O => None
  | S j => node_at xs j
  end.

(** Every node of [xs] is stored with its value and with links to its
    neighbours in [xs] (the Node invariant of the data model: [prev] of the
    successor and [next] of the predecessor point back), and no node occurs
    twice. *)
Definition linked (h : gmap loc Node) (xs : list (loc * T)) : Prop :=
  NoDup xs.*1 /\
  forall i l v, xs !! i = Some (l, v) ->
    h !! l = Some (mkNode v (node_before xs i) (node_at xs (S i))).

Definition represents (s : state) (xs : list (loc * T)) : Prop :=
  linked (heap s) xs /\
  _head (lst s) = node_at xs 0 /\
  _tail (lst s) = node_before xs (length xs) /\
  _size (lst s) = Z.of_nat (length xs).

Definition well_formed (s : state) : Prop := exists xs, represents s xs.

(** Linking a node in at position [k] of the sequence. *)
Definition splice (k : nat) (p : loc * T) (xs : list (loc * T)) : list (loc * T) :=
  take k xs ++ p :: drop k xs.

(** The assignments [o.next = p] and [o.prev = p] guarded by [if o:]. *)
Definition set_next_opt (o : option loc) (p : option loc)
    (h : gmap loc Node) : gmap loc Node :=
  match o with Some n => set_next n p h | None => h end.

Definition set_prev_opt (o : option loc) (p : option loc)
    (h : gmap loc Node) : gmap loc Node :=
  match o with Some n => set_prev n p h | None => h end.

(** The nodes currently belonging to the list: those reached from [_head]
    along [next].  A chain without a cycle has at most as many nodes as the
    store holds, which is the fuel given. *)
Definition nodes (s : state) : option (list loc) :=
  walk_next (size (heap s)) s.

Definition belongs (n : loc) (s : state) : bool :=
  match nodes s with
  | Some ls => bool_decide (n ∈ ls)
  | None => false
  end.

(** The values of the list, by [__iter__] run for [__len__] steps. *)
Definition contents (s : state) : option (list T) :=
  iter (Z.to_nat (len s)) s.

(** *** Sequences of operations *)
Inductive op : Type :=
  | Append (v : T)
  | AppendLeft (v : T)
  | Pop
  | PopLeft
  | InsertAfter (n : loc) (v : T)
  | InsertBefore (n : loc) (v : T)
  | RemoveNode (n : loc).

(** The state an operation leaves, whether it returns or raises. *)
Definition exec (o : op) (s : state) : state :=
  match o with
  | Append v => (append v s).2
  | AppendLeft v => (appendleft v s).2
  | Pop => (pop s).2
  | PopLeft => (popleft s).2
  | InsertAfter n v => (insert_after n v s).2
  | InsertBefore n v => (insert_before n v s).2
  | RemoveNode n => (remove_node n s).2
  end.

Definition run (ops : list op) (s : state) : state :=
  foldl (fun s o => exec o s) s ops.

(** The precondition of [insert_after], [insert_before] and [remove_node]:
    the node belongs to the list at the time of the call. *)
Definition admissible (o : op) (s : state) : bool :=
  match o with
  | InsertAfter n _ | InsertBefore n _ | RemoveNode n => belongs n s
  | _ => true
  end.

Fixpoint admissible_run (ops : list op) (s : state) : bool :=
  match ops with
  | [] => true
  | o :: ops' => admissible o s && admissible_run ops' (exec o s)
  end.

(** The structural invariants of the data model, on what the code
    observes: the three slots and the two traversals.  Each traversal ends
    when allowed [size] nodes and does not end when allowed fewer. *)
Definition structural_invariants (s : state) : Prop :=
  (len s = 0 <-> _head (lst s) = None) /\
  (_head (lst s) = None <-> _tail (lst s) = None) /\
  exists (fwd : list loc) (vs : list T),
    Z.of_nat (length fwd) = len s /\
    Z.of_nat (length vs) = len s /\
    last fwd = _tail (lst s) /\
    last (reverse fwd) = _head (lst s) /\
    (forall fuel : nat, len s <= Z.of_nat fuel ->
       walk_next fuel s = Some fwd /\
       walk_prev fuel s = Some (reverse fwd) /\
       iter fuel s = Some vs /\
       reversed fuel s = Some (reverse vs)) /\
    (forall fuel : nat, Z.of_nat fuel < len s ->
       walk_next fuel s = None /\ walk_prev fuel s = None).

End Container.
Arguments Node : clear implicits.
Arguments DoublyLinkedList : clear implicits.
Arguments state : clear implicits.
Arguments op : clear implicits.

(** Sample runs on integers. *)
Definition sample_ops : list (op Z) :=
  [Append 1; Append 2; AppendLeft 0; InsertAfter 1%positive 5;
   InsertBefore 2%positive 7; RemoveNode 1%positive; Pop; PopLeft; Pop; Pop;
   Pop; PopLeft; Append 9].

Definition two_elements : state Z := run [Append 1; Append 2] (mkState ∅ init).

Definition three_elements : state Z :=
  run [Append 1; Append 2; Append 3] (mkState ∅ init).

(** The node an operation unlinks, if any: the argument of
    [remove_node], the tail for [pop], the head for [popleft]. *)
Definition unlinks {T : Type} (o : op T) (s : state T) : option loc :=
  match o with
  | RemoveNode n => Some n
  | Pop => _tail (lst s)
  | PopLeft => _head (lst s)
  | _ => None
  end.

(** A caller's loop that calls [pop_op] (one of [pop], [popleft]) [k]
    times and collects what it returns, stopped by the first exception. *)
Fixpoint drain {T : Type} (pop_op : state T -> result exn T * state T)
    (k : nat) (s : state T) : list T * state T :=
  match k with
  | O => ([], s)
  | S k' =>
      match pop_op s with
      | (Ok v, s') => let '(vs, s'') := drain pop_op k' s' in (v :: vs, s'')
      | (Raise _, s') => ([], s')
      end
  end.

End DLL.

(** ** base/pattern.py *)
Module Pattern.

(** Addresses of objects (pattern instances, dicts made by callers). *)
Definition loc := positive.

(** The value of a class attribute [name], or of a dict key: [None], a
    [str], or a hashable value that is neither ([NameOther], told apart by
    a tag). *)
Inductive pyname : Type :=
  | NameNone
  | NameStr (s : string)
  | NameOther (tag : Z).

#[global] Instance pyname_eq_dec : EqDecision pyname.
Proof. solve_decision. Defined.

#[global] Instance pyname_countable : Countable pyname.
Proof.
  refine (inj_countable'
    (fun n => match n with
              | NameNone => inl tt
              | NameStr s => inr (inl s)
              | NameOther z => inr (inr z)
              end)
    (fun x => match x with
              | inl _ => NameNone
              | inr (inl s) => NameStr s
              | inr (inr z) => NameOther z
              end) _).
  by intros [].
Defined.

(** The exceptions raised, with the message or the key they carry. *)
Inductive exn : Type :=
  | ValueError (msg : string)
  | KeyError (key : pyname)
  | TypeError (msg : string)
  | OtherError (msg : string).

(** The names the spec gives to the failures. *)
Definition msg_name_unset (cls : string) : string :=
  "`name` attribute must be set on subclass `" ++ cls ++ "`".

Definition msg_name_invalid (cls : string) : string :=
  "`name` attribute of `" ++ cls ++ "`, must be a non-empty string".

Definition msg_duplicate (current existing : string) : string :=
  "Duplicate name assigned for classes `" ++ current ++ "` and `"
    ++ existing ++ "`".

Definition InvalidPatternName (e : exn) : Prop :=
  exists cls, e = ValueError (msg_name_unset cls)
           \/ e = ValueError (msg_name_invalid cls).

Definition DuplicatePattern (e : exn) : Prop :=
  exists current existing, e = ValueError (msg_duplicate current existing).

Definition NotFound (e : exn) : Prop := exists key, e = KeyError key.

Definition AbstractContractViolation (e : exn) : Prop :=
  exists msg, e = TypeError msg.

Section Registry.
(** The keyword arguments of a constructor call and the attributes an
    instance is built with are opaque here. *)
Context {Config Attrs : Type}.

(** A subclass of [BasePattern], as a [class] statement presents it:
    [__name__], the class attribute [name] as [cls.name] reads it (the
    inherited [None] when the class body sets none), the set
    [__abstractmethods__] that [ABCMeta] computes (it holds [on_pivot]
    exactly when the class has no implementation of it), and [__init__],
    which returns the attributes of the new instance or raises.  [__init__]
    is taken not to call back into [Registry]. *)
Record pyclass : Type := mkClass {
  cls_name : string;
  name : pyname;
  abstractmethods : list string;
  init : Config -> result exn Attrs
}.

Definition implements_on_pivot (c : pyclass) : bool :=
  bool_decide ("on_pivot" ∉ abstractmethods c).

(** An instance: its class and its attributes. *)
Record instance : Type := mkInstance {
  inst_class : pyclass;
  attrs : Attrs
}.

(** The objects of the program that the registry touches:
    the dict bound to [Registry._register], the dict bound to
    [Registry._instances] (its values are instance objects, by address),
    the instance objects, and the other dicts of classes callers hold
    (such as a copy of what [all()] returned). *)
Record world : Type := mkWorld {
  _register : gmap pyname pyclass;
  _instances : gmap pyname loc;
  objects : gmap loc instance;
  caller_dicts : gmap loc (gmap pyname pyclass)
}.

(** The state after the class body of [Registry] has run. *)
Definition empty_world : world := mkWorld ∅ ∅ ∅ ∅.

(** A reference to a dict of classes: the object bound to
    [Registry._register], or a dict a caller made. *)
Inductive dict_ref : Type :=
  | RegisterDict
  | CallerDict (l : loc).

Definition deref (w : world) (r : dict_ref) : option (gmap pyname pyclass) :=
  match r with
  | RegisterDict => Some (_register w)
  | CallerDict l => caller_dicts w !! l
  end.

(** [Registry.register] *)
Definition register (subcls : pyclass) (w : world) : result exn unit * world :=
  match _register w !! name subcls with
  | Some existing =>
      (Raise (ValueError (msg_duplicate (cls_name subcls) (cls_name existing))), w)
  | None =>
      (Ok tt, mkWorld (<[name subcls := subcls]> (_register w))
                      (_instances w) (objects w) (caller_dicts w))
  end.

(** [BasePattern.__init_subclass__], for a class statement without
    keyword arguments. *)
Definition init_subclass (cls : pyclass) (w : world) : result exn unit * world :=
  match name cls with
  | NameNone => (Raise (ValueError (msg_name_unset (cls_name cls))), w)
  | NameOther _ => (Raise (ValueError (msg_name_invalid (cls_name cls))), w)
  | NameStr s =>
      if decide (s = EmptyString)
      then (Raise (ValueError (msg_name_invalid (cls_name cls))), w)
      else register cls w
  end.

(** A [class C(BasePattern): ...] statement.  Creating the class runs
    [__init_subclass__] and nothing else of this module; the statement
    fails exactly when that raises.  [ABCMeta] only records
    [__abstractmethods__]. *)
Definition declare (cls : pyclass) (w : world) : result exn unit * world :=
  init_subclass cls w.

(** The call of a class on keyword arguments: [object.__new__] refuses a class
    whose [__abstractmethods__] is not empty, then [__init__] runs. *)
Definition instantiate (c : pyclass) (kwargs : Config) : result exn instance :=
  match abstractmethods c with
  | _ :: _ =>
      Raise (TypeError ("Can't instantiate abstract class " ++ cls_name c))
  | [] =>
      match init c kwargs with
      | Ok a => Ok (mkInstance c a)
      | Raise e => Raise e
      end
  end.

(** [Registry.get_instance] *)
Definition get_instance (nm : pyname) (w : world) : result exn loc :=
  match _instances w !! nm with
  | Some l => Ok l
  | None => Raise (KeyError nm)
  end.

(** [Registry.all]: the object bound to [_register] itself. *)
Definition all (w : world) : dict_ref := RegisterDict.

(** [Registry.create] *)
Definition create (nm : pyname) (kwargs : Config) (w : world)
  : result exn loc * world :=
  match _instances w !! nm with
  | Some l => (Ok l, w)
  | None =>
      match _register w !! nm with
      | None => (Raise (KeyError nm), w)
      | Some c =>
          match instantiate c kwargs with
          | Raise e => (Raise e, w)
          | Ok obj =>
              let l := fresh (dom (objects w)) in
              (Ok l, mkWorld (_register w) (<[nm := l]> (_instances w))
                             (<[l := obj]> (objects w)) (caller_dicts w))
          end
      end
  end.

(** What a caller can do with a reference to a dict:
    [d[k] = c], [del d[k]] and [dict(d)].  A reference always designates a
    dict; on a [CallerDict] address that holds none, [dict_setitem] does
    nothing, [dict_delitem] reports it and [dict_copy] gives [None]. *)
Definition dict_setitem (r : dict_ref) (k : pyname) (c : pyclass) (w : world)
  : world :=
  match r with
  | RegisterDict =>
      mkWorld (<[k := c]> (_register w)) (_instances w) (objects w)
              (caller_dicts w)
  | CallerDict l =>
      mkWorld (_register w) (_instances w) (objects w)
              (alter (insert k c) l (caller_dicts w))
  end.

Definition dict_delitem (r : dict_ref) (k : pyname) (w : world)
  : result exn unit * world :=
  match deref w r with
  | None => (Raise (OtherError "no such dict"), w)
  | Some d =>
      match d !! k with
      | None => (Raise (KeyError k), w)
      | Some _ =>
          (Ok tt,
           match r with
           | RegisterDict =>
               mkWorld (delete k (_register w)) (_instances w) (objects w)
                       (caller_dicts w)
           | CallerDict l =>
               mkWorld (_register w) (_instances w) (objects w)
                       (alter (delete k) l (caller_dicts w))
           end)
      end
  end.

Definition dict_copy (r : dict_ref) (w : world) : option (dict_ref * world) :=
  match deref w r with
  | None => None
  | Some d =>
      let l := fresh (dom (caller_dicts w)) in
      Some (CallerDict l,
            mkWorld (_register w) (_instances w) (objects w)
                    (<[l := d]> (caller_dicts w)))
  end.

(** The invariant of the data model: every key of [_instances] is a key
    of [_register]. *)
Definition registry_inv (w : world) : Prop :=
  forall k, is_Some (_instances w !! k) -> is_Some (_register w !! k).

(** Calls of the registry, in sequence. *)
Inductive call : Type :=
  | Subclass (cls : pyclass)
  | Create (nm : pyname) (kwargs : Config)
  | GetInstance (nm : pyname)
  | All.

Definition exec (c : call) (w : world) : world :=
  match c with
  | Subclass cls => (declare cls w).2
  | Create nm kwargs => (create nm kwargs w).2
  | GetInstance _ => w
  | All => w
  end.

Definition run (cs : list call) (w : world) : world :=
  foldl (fun w c => exec c w) w cs.

End Registry.
Arguments pyclass : clear implicits.
Arguments instance : clear implicits.
Arguments world : clear implicits.
Arguments call : clear implicits.

(** Sample variants: the keyword arguments are one integer, kept as
    the attribute of the instance. *)

(** [class Foo(BasePattern): name = "foo"; def on_pivot(self): ...] *)
Definition Foo : pyclass Z Z :=
  mkClass "Foo" (NameStr "foo") [] (fun k => Ok k).

(** [class Bare(BasePattern): name = "bare"], without [on_pivot]. *)
Definition Bare : pyclass Z Z :=
  mkClass "Bare" (NameStr "bare") ["on_pivot"] (fun k => Ok k).

(** [class Foo2(BasePattern): name = "foo"; def on_pivot(self): ...] *)
Definition Foo2 : pyclass Z Z :=
  mkClass "Foo2" (NameStr "foo") [] (fun k => Ok k).

(** A variant whose constructor raises. *)
Definition Picky : pyclass Z Z :=
  mkClass "Picky" (NameStr "picky") []
    (fun k => Raise (OtherError "bad threshold")).

(** A variant whose constructor accepts only a positive threshold. *)
Definition Strict : pyclass Z Z :=
  mkClass "Strict" (NameStr "strict") []
    (fun k => if decide (0 < k) then Ok k
              else Raise (ValueError "threshold must be positive")).

Section Invariants.
Context {Config Attrs : Type}.

(** Every key of [_register] is a non-empty [str] and is the [name] of the
    class stored under it. *)
Definition keys_valid (w : world Config Attrs) : Prop :=
  forall k c, _register w !! k = Some c ->
    name c = k /\ exists s, k = NameStr s /\ s <> EmptyString.

(** Every cached instance is a stored object, built by the constructor of
    the class registered under its name, and that class has no abstract
    method. *)
Definition instances_typed (w : world Config Attrs) : Prop :=
  forall nm l, _instances w !! nm = Some l ->
    exists obj c,
      objects w !! l = Some obj /\
      _register w !! nm = Some c /\
      inst_class obj = c /\
      abstractmethods c = [] /\
      exists kwargs, init c kwargs = Ok (attrs obj).

(** Two names never share an instance. *)
Definition instances_distinct (w : world Config Attrs) : Prop :=
  forall a b l, _instances w !! a = Some l -> _instances w !! b = Some l -> a = b.

End Invariants.

End Pattern.

(** ** Proofs about doubly_linked_list.py *)
Module DLLProofs.
Import DLL.

Section Proofs.
Context {T : Type}.
Implicit Types (h : gmap loc (Node T)) (xs : list (loc * T)) (s : state T).
Implicit Types (l n : loc) (v : T).

(** *** Positions in the represented sequence *)

Lemma node_at_Some xs i l :
  node_at xs i = Some l <-> exists v, xs !! i = Some (l, v).
Proof.
  unfold node_at. split.
  - destruct (xs !! i) as [[l' v]|] eqn:E; simpl; [|done].
    intros [= ->]. eauto.
  - intros [v ->]. done.
Qed.

Lemma node_at_None xs i : node_at xs i = None <-> (length xs <= i)%nat.
Proof.
  unfold node_at. rewrite fmap_None. apply lookup_ge_None.
Qed.

Lemma node_at_fst xs i : node_at xs i = xs.*1 !! i.
Proof. unfold node_at. by rewrite list_lookup_fmap. Qed.

Lemma position_inj xs i j l v w :
  NoDup xs.*1 -> xs !! i = Some (l, v) -> xs !! j = Some (l, w) -> i = j.
Proof.
  intros Hnd Hi Hj.
  eapply (NoDup_lookup xs.*1 i j l); [done | |];
    rewrite list_lookup_fmap; [by rewrite Hi | by rewrite Hj].
Qed.

Lemma linked_lookup h xs i l v :
  linked h xs -> xs !! i = Some (l, v) ->
  h !! l = Some (mkNode v (node_before xs i) (node_at xs (S i))).
Proof. intros [_ H]. apply H. Qed.

Lemma linked_in_dom h xs l : linked h xs -> l ∈ xs.*1 -> l ∈ dom h.
Proof.
  intros Hl Hin. apply list_elem_of_lookup in Hin as [i Hi].
  rewrite <- node_at_fst in Hi. apply node_at_Some in Hi as [v Hv].
  apply elem_of_dom. rewrite (linked_lookup _ _ _ _ _ Hl Hv). eauto.
Qed.

Lemma new_loc_fresh h : h !! new_loc h = None.
Proof. apply not_elem_of_dom. unfold new_loc. apply is_fresh. Qed.

Lemma linked_length h xs : linked h xs -> (length xs <= size h)%nat.
Proof.
  intros Hl. rewrite <- (length_fmap fst xs), <- size_dom.
  destruct Hl as [Hnd Hl].
  rewrite <- (size_list_to_set (C:=gset loc) xs.*1 Hnd).
  apply subseteq_size. intros l Hin. apply elem_of_list_to_set in Hin.
  by apply (linked_in_dom h xs l).
Qed.

(** *** The traversals of a linked chain *)

Lemma traverse_next_linked {A} (out : loc -> T -> A) h xs :
  linked h xs ->
  forall k i fuel, length xs = (i + k)%nat -> (k <= fuel)%nat ->
    traverse next out fuel h (node_at xs i)
    = Some ((fun p => out p.1 p.2) <$> drop i xs).
Proof.
  intros Hl. induction k as [|k IH]; intros i fuel Hlen Hfuel.
  - rewrite (proj2 (node_at_None xs i)) by lia.
    rewrite drop_ge by lia. by destruct fuel.
  - destruct (lookup_lt_is_Some_2 xs i) as [[l v] Hi]; [lia|].
    unfold node_at at 1. rewrite Hi. simpl.
    destruct fuel as [|fuel]; [lia|]. simpl.
    rewrite (linked_lookup _ _ _ _ _ Hl Hi). simpl.
    rewrite (IH (S i) fuel) by lia.
    by rewrite (drop_S _ _ _ Hi).
Qed.

Lemma traverse_prev_linked {A} (out : loc -> T -> A) h xs :
  linked h xs ->
  forall i fuel, (i <= length xs)%nat -> (i <= fuel)%nat ->
    traverse prev out fuel h (node_before xs i)
    = Some (reverse ((fun p => out p.1 p.2) <$> take i xs)).
Proof.
  intros Hl. induction i as [|i IH]; intros fuel Hlen Hfuel.
  - simpl. by destruct fuel.
  - destruct (lookup_lt_is_Some_2 xs i) as [[l v] Hi]; [lia|].
    simpl. unfold node_at. rewrite Hi. simpl.
    destruct fuel as [|fuel]; [lia|]. simpl.
    rewrite (linked_lookup _ _ _ _ _ Hl Hi). simpl.
    rewrite (IH fuel) by lia.
    rewrite (take_S_r _ _ _ Hi), fmap_app, reverse_app. done.
Qed.

Lemma traverse_next_short {A} (out : loc -> T -> A) h xs :
  linked h xs ->
  forall fuel k i, length xs = (i + k)%nat -> (fuel < k)%nat ->
    traverse next out fuel h (node_at xs i) = None.
Proof.
  intros Hl. induction fuel as [|fuel IH]; intros k i Hlen Hfuel;
    (destruct (lookup_lt_is_Some_2 xs i) as [[l v] Hi]; [lia|]);
    unfold node_at at 1; rewrite Hi; simpl; [done|].
  rewrite (linked_lookup _ _ _ _ _ Hl Hi). simpl.
  by rewrite (IH (k - 1)%nat (S i)) by lia.
Qed.

Lemma traverse_prev_short {A} (out : loc -> T -> A) h xs :
  linked h xs ->
  forall fuel i, (i <= length xs)%nat -> (fuel < i)%nat ->
    traverse prev out fuel h (node_before xs i) = None.
Proof.
  intros Hl. induction fuel as [|fuel IH]; intros i Hlen Hfuel;
    (destruct i as [|i]; [lia|]);
    (destruct (lookup_lt_is_Some_2 xs i) as [[l v] Hi]; [lia|]);
    simpl; unfold node_at at 1; rewrite Hi; simpl; [done|].
  rewrite (linked_lookup _ _ _ _ _ Hl Hi). simpl.
  by rewrite (IH i) by lia.
Qed.

(** *** Inserting into and deleting from a linked chain *)

Lemma lookup_splice k p xs i :
  (k <= length xs)%nat ->
  splice k p xs !! i =
    if decide (i < k)%nat then xs !! i
    else if decide (i = k) then Some p else xs !! (i - 1)%nat.
Proof.
  intros Hk. unfold splice.
  repeat case_decide.
  - rewrite lookup_app_l by (rewrite length_take; lia).
    by rewrite lookup_take_lt.
  - subst i. rewrite list_lookup_middle; [done|]. rewrite length_take; lia.
  - rewrite lookup_app_r by (rewrite length_take; lia).
    rewrite length_take, Nat.min_l by lia.
    destruct (i - k)%nat as [|j] eqn:E; [lia|]. simpl.
    rewrite lookup_drop. f_equal. lia.
Qed.

Lemma node_at_splice k p xs i :
  (k <= length xs)%nat ->
  node_at (splice k p xs) i =
    if decide (i < k)%nat then node_at xs i
    else if decide (i = k) then Some p.1 else node_at xs (i - 1).
Proof.
  intros Hk. unfold node_at. rewrite lookup_splice by done.
  by repeat case_decide.
Qed.

Lemma length_splice k p xs : length (splice k p xs) = S (length xs).
Proof.
  unfold splice. rewrite length_app. simpl.
  rewrite length_take, length_drop. lia.
Qed.

Lemma splice_perm {A} k (a : A) (l : list A) : take k l ++ a :: drop k l ≡ₚ a :: l.
Proof. rewrite <- Permutation_middle. by rewrite take_drop. Qed.

Lemma linked_splice h h' xs k new v :
  linked h xs -> (k <= length xs)%nat -> new ∉ xs.*1 ->
  h' !! new = Some (mkNode v (node_before xs k) (node_at xs k)) ->
  (forall i l w, xs !! i = Some (l, w) ->
     h' !! l = Some (mkNode w
       (if decide (i = k) then Some new else node_before xs i)
       (if decide (S i = k) then Some new else node_at xs (S i)))) ->
  linked h' (splice k (new, v) xs).
Proof.
  intros [Hnd Hl] Hk Hnew Hn Hold. split.
  - unfold splice. rewrite fmap_app, fmap_cons, fmap_take, fmap_drop.
    rewrite splice_perm. simpl. by apply NoDup_cons.
  - intros i l w Hi. rewrite lookup_splice in Hi by done.
    assert (Hb : node_before (splice k (new, v) xs) i =
                 if decide (i <= k)%nat then node_before xs i
                 else if decide (i = S k) then Some new
                 else node_before xs (i - 1)).
    { destruct i as [|j]; simpl; [by case_decide|].
      rewrite node_at_splice by done. simpl.
      repeat case_decide; try lia; try done.
      destruct j; [lia|]. simpl. by rewrite Nat.sub_0_r. }
    rewrite Hb, node_at_splice by done. simpl.
    destruct (decide (i < k)%nat) as [Hlt|Hge].
    { rewrite (Hold _ _ _ Hi).
      repeat case_decide; try lia; repeat f_equal; lia. }
    destruct (decide (i = k)) as [->|Hne].
    { simplify_eq. rewrite Hn.
      repeat case_decide; try lia; repeat f_equal; lia. }
    destruct i as [|j]; [lia|]. simpl in Hi. rewrite Nat.sub_0_r in Hi.
    rewrite (Hold _ _ _ Hi). simpl. rewrite Nat.sub_0_r.
    repeat case_decide; try lia; done.
Qed.

Lemma node_at_delete p xs i :
  node_at (delete p xs) i =
    if decide (i < p)%nat then node_at xs i else node_at xs (S i).
Proof.
  unfold node_at. case_decide.
  - by rewrite list_lookup_delete_lt.
  - by rewrite list_lookup_delete_ge by lia.
Qed.

Lemma linked_delete h h' xs p x w0 :
  linked h xs -> xs !! p = Some (x, w0) ->
  (forall i l w, xs !! i = Some (l, w) -> i <> p ->
     h' !! l = Some (mkNode w
       (if decide (i = S p) then node_before xs p else node_before xs i)
       (if decide (S i = p) then node_at xs (S p) else node_at xs (S i)))) ->
  linked h' (delete p xs).
Proof.
  intros [Hnd Hl] Hp Hold. split.
  - eapply sublist_NoDup; [exact Hnd|].
    apply fmap_sublist, sublist_delete.
  - intros i l w Hi.
    assert (Hb : node_before (delete p xs) i =
                 if decide (i <= p)%nat then node_before xs i
                 else node_at xs i).
    { destruct i as [|j]; simpl; [done|].
      rewrite node_at_delete. repeat case_decide; try lia; done. }
    rewrite Hb, node_at_delete.
    destruct (decide (i < p)%nat) as [Hlt|Hge].
    + rewrite list_lookup_delete_lt in Hi by done.
      rewrite (Hold _ _ _ Hi) by lia.
      repeat case_decide; try lia; try done. by subst p.
    + rewrite list_lookup_delete_ge in Hi by lia.
      rewrite (Hold _ _ _ Hi) by lia. simpl.
      repeat case_decide; try lia; try done.
      * assert (i = p) as -> by lia. done.
Qed.

Lemma node_at_eq_iff xs i k l w :
  NoDup xs.*1 -> xs !! i = Some (l, w) -> node_at xs k = Some l <-> k = i.
Proof.
  intros Hnd Hi. split.
  - intros [w' Hk]%node_at_Some. by apply (position_inj xs k i l w' w).
  - intros ->. apply node_at_Some. eauto.
Qed.

Lemma node_before_eq_iff xs i k l w :
  NoDup xs.*1 -> xs !! i = Some (l, w) -> node_before xs k = Some l <-> k = S i.
Proof.
  intros Hnd Hi. destruct k as [|k]; simpl; [split; [done|lia]|].
  rewrite (node_at_eq_iff xs i k l w) by done. lia.
Qed.

(** Turn the facts [P] and [~ P] of the context into facts on positions,
    given [Ha : P <-> i = j]. *)
Ltac to_index Ha :=
  match type of Ha with
  | ?P <-> _ =>
      repeat match goal with
      | H : P |- _ => apply Ha in H
      | H : ~ P |- _ => rewrite Ha in H
      end
  end.

Lemma lookup_set_next_opt o p h l :
  set_next_opt o p h !! l =
    (fun nd => mkNode (value nd) (prev nd)
                 (if decide (o = Some l) then p else next nd)) <$> h !! l.
Proof.
  destruct o as [n|]; simpl.
  - unfold set_next. rewrite lookup_alter.
    repeat case_decide; simplify_eq; try done.
    by destruct (h !! l) as [[]|].
  - by destruct (h !! l) as [[]|].
Qed.

Lemma lookup_set_prev_opt o p h l :
  set_prev_opt o p h !! l =
    (fun nd => mkNode (value nd)
                 (if decide (o = Some l) then p else prev nd) (next nd)) <$> h !! l.
Proof.
  destruct o as [n|]; simpl.
  - unfold set_prev. rewrite lookup_alter.
    repeat case_decide; simplify_eq; try done.
    by destruct (h !! l) as [[]|].
  - by destruct (h !! l) as [[]|].
Qed.

(** The store after linking a new node in at position [k]. *)
Lemma splice_heap h h' xs k new v :
  linked h xs -> (k <= length xs)%nat -> h !! new = None ->
  (forall l, h' !! l =
     if decide (l = new)
     then Some (mkNode v (node_before xs k) (node_at xs k))
     else (fun nd => mkNode (value nd)
             (if decide (node_at xs k = Some l) then Some new else prev nd)
             (if decide (node_before xs k = Some l) then Some new else next nd))
          <$> h !! l) ->
  linked h' (splice k (new, v) xs).
Proof.
  intros Hl Hk Hnew Hh'.
  assert (Hnotin : new ∉ xs.*1).
  { intros Hin%(linked_in_dom _ _ _ Hl)%elem_of_dom. rewrite Hnew in Hin.
    by destruct Hin. }
  apply (linked_splice h h' xs k new v); try done.
  - rewrite Hh'. by case_decide.
  - intros i l w Hi. rewrite Hh'. case_decide as Hln.
    + subst l. exfalso. apply Hnotin.
      apply list_elem_of_lookup. exists i. rewrite list_lookup_fmap, Hi. done.
    + rewrite (linked_lookup _ _ _ _ _ Hl Hi). simpl.
      destruct Hl as [Hnd _].
      pose proof (node_at_eq_iff xs i k l w Hnd Hi) as Ha.
      pose proof (node_before_eq_iff xs i k l w Hnd Hi) as Hb.
      repeat case_decide; try done; exfalso; to_index Ha; to_index Hb; lia.
Qed.

(** The store after unlinking the node at position [p]. *)
Lemma delete_heap h h' xs p x w0 :
  linked h xs -> xs !! p = Some (x, w0) ->
  (forall l, l <> x -> h' !! l =
     (fun nd => mkNode (value nd)
        (if decide (node_at xs (S p) = Some l) then node_before xs p else prev nd)
        (if decide (node_before xs p = Some l) then node_at xs (S p) else next nd))
     <$> h !! l) ->
  linked h' (delete p xs).
Proof.
  intros Hl Hp Hh'.
  apply (linked_delete h h' xs p x w0); try done.
  intros i l w Hi Hne.
  assert (l <> x) as Hlx.
  { intros ->. apply Hne. destruct Hl as [Hnd _].
    by apply (position_inj xs i p x w w0). }
  rewrite (Hh' l Hlx), (linked_lookup _ _ _ _ _ Hl Hi). simpl.
  destruct Hl as [Hnd _].
  pose proof (node_at_eq_iff xs i (S p) l w Hnd Hi) as Ha.
  pose proof (node_before_eq_iff xs i p l w Hnd Hi) as Hb.
  repeat case_decide; try done; exfalso; to_index Ha; to_index Hb; lia.
Qed.

Lemma set_prev_next_opt_comm a x b y h :
  set_prev_opt a x (set_next_opt b y h) = set_next_opt b y (set_prev_opt a x h).
Proof.
  apply map_eq. intros l.
  rewrite !lookup_set_prev_opt, !lookup_set_next_opt, !lookup_set_prev_opt.
  by destruct (h !! l) as [[]|].
Qed.

Lemma node_at_not_new h xs k new :
  linked h xs -> h !! new = None -> node_at xs k <> Some new.
Proof.
  intros Hl Hnew [w Hk]%node_at_Some.
  rewrite (linked_lookup _ _ _ _ _ Hl Hk) in Hnew. done.
Qed.

Lemma node_before_not_new h xs k new :
  linked h xs -> h !! new = None -> node_before xs k <> Some new.
Proof. destruct k; [done|]. apply node_at_not_new. Qed.

Lemma insert_heap_linked h xs k new v :
  linked h xs -> (k <= length xs)%nat -> h !! new = None ->
  linked
    (set_next_opt (node_before xs k) (Some new)
       (set_prev_opt (node_at xs k) (Some new)
          (<[new := mkNode v (node_before xs k) (node_at xs k)]> h)))
    (splice k (new, v) xs).
Proof.
  intros Hl Hk Hnew. apply (splice_heap h _ xs k new v); try done.
  intros l. rewrite lookup_set_next_opt, lookup_set_prev_opt, lookup_insert.
  pose proof (node_at_not_new h xs k new Hl Hnew).
  pose proof (node_before_not_new h xs k new Hl Hnew).
  destruct (decide (new = l)) as [->|Hne].
  - rewrite decide_True by done. simpl. by rewrite !decide_False by done.
  - rewrite decide_False by done. by destruct (h !! l) as [[]|].
Qed.

Lemma remove_heap_linked h xs p x w :
  linked h xs -> xs !! p = Some (x, w) ->
  linked
    (set_next x None (set_prev x None
       (set_prev_opt (node_at xs (S p)) (node_before xs p)
          (set_next_opt (node_before xs p) (node_at xs (S p)) h))))
    (delete p xs).
Proof.
  intros Hl Hp. apply (delete_heap h _ xs p x w); try done.
  intros l Hne. unfold set_next, set_prev.
  rewrite !lookup_alter_ne by done.
  rewrite lookup_set_prev_opt, lookup_set_next_opt.
  by destruct (h !! l) as [[]|].
Qed.

Lemma node_before_splice k p xs i :
  (k <= length xs)%nat ->
  node_before (splice k p xs) i =
    if decide (i <= k)%nat then node_before xs i
    else if decide (i = S k) then Some p.1 else node_before xs (i - 1).
Proof.
  intros Hk. destruct i as [|j]; simpl; [done|].
  rewrite node_at_splice by done.
  repeat case_decide; try lia; try done.
  destruct j; [lia|]. simpl. by rewrite Nat.sub_0_r.
Qed.

Lemma node_before_delete p xs i :
  node_before (delete p xs) i =
    if decide (i <= p)%nat then node_before xs i else node_at xs i.
Proof.
  destruct i as [|j]; simpl; [done|].
  rewrite node_at_delete. repeat case_decide; try lia; done.
Qed.

Lemma length_delete_Some xs p x :
  xs !! p = Some x -> length xs = S (length (delete p xs)).
Proof.
  intros Hp. rewrite length_delete by eauto.
  apply lookup_lt_Some in Hp. lia.
Qed.

(** *** Each operation on a well-formed list *)

Lemma represents_node s xs p n w :
  represents s xs -> xs !! p = Some (n, w) ->
  heap s !! n = Some (mkNode w (node_before xs p) (node_at xs (S p))).
Proof. intros [Hl _]. by apply linked_lookup. Qed.

Lemma insert_after_represents s xs p n w v :
  represents s xs -> xs !! p = Some (n, w) ->
  exists s', insert_after n v s = (Ok (new_loc (heap s)), s') /\
    represents s' (splice (S p) (new_loc (heap s), v) xs).
Proof.
  intros Hr Hp. pose proof (represents_node _ _ _ _ _ Hr Hp) as Hn.
  destruct Hr as (Hl & Hh & Ht & Hs).
  pose proof (lookup_lt_Some _ _ _ Hp) as Hlt.
  unfold insert_after. rewrite Hn. simpl.
  set (new := new_loc (heap s)).
  pose proof (insert_heap_linked (heap s) xs (S p) new v Hl Hlt
                (new_loc_fresh _)) as Hl'.
  assert (Hnp : node_at xs p = Some n) by (apply node_at_Some; eauto).
  simpl in Hl'. rewrite Hnp in Hl'. simpl in Hl'.
  destruct (node_at xs (S p)) as [nx|] eqn:Hnx; simpl;
    (eexists; split; [reflexivity|]);
    (split; [exact Hl'|]); simpl; rewrite length_splice;
    rewrite node_at_splice by done; simpl; (split; [done|]);
    (split; [|lia]); rewrite node_at_splice by done.
  - apply node_at_Some in Hnx as [? Hnx%lookup_lt_Some].
    rewrite Ht. repeat case_decide; try lia.
    destruct (length xs); [lia|]. simpl. by rewrite Nat.sub_0_r.
  - apply node_at_None in Hnx. repeat case_decide; try lia. done.
Qed.

Lemma insert_before_represents s xs p n w v :
  represents s xs -> xs !! p = Some (n, w) ->
  exists s', insert_before n v s = (Ok (new_loc (heap s)), s') /\
    represents s' (splice p (new_loc (heap s), v) xs).
Proof.
  intros Hr Hp. pose proof (represents_node _ _ _ _ _ Hr Hp) as Hn.
  destruct Hr as (Hl & Hh & Ht & Hs).
  pose proof (lookup_lt_Some _ _ _ Hp) as Hlt.
  unfold insert_before. rewrite Hn. simpl.
  set (new := new_loc (heap s)).
  assert (Hle : (p <= length xs)%nat) by lia.
  pose proof (insert_heap_linked (heap s) xs p new v Hl Hle
                (new_loc_fresh _)) as Hl'.
  assert (Hnp : node_at xs p = Some n) by (apply node_at_Some; eauto).
  rewrite <- set_prev_next_opt_comm, Hnp in Hl'. simpl in Hl'.
  destruct (node_before xs p) as [pv|] eqn:Hpv; simpl;
    (eexists; split; [reflexivity|]);
    (split; [exact Hl'|]); simpl; rewrite length_splice;
    rewrite node_at_splice by done; simpl;
    rewrite Ht; (split; [|split; [|lia]]).
  - destruct p; [done|]. by rewrite decide_True by lia.
  - rewrite node_at_splice by done. repeat case_decide; try lia.
    destruct (length xs); [lia|]. simpl. by rewrite Nat.sub_0_r.
  - destruct p; [by rewrite decide_False by lia|].
    simpl in Hpv. apply node_at_None in Hpv. lia.
  - rewrite node_at_splice by done. repeat case_decide; try lia.
    destruct (length xs); [lia|]. simpl. by rewrite Nat.sub_0_r.
Qed.

Lemma splice_end (q : loc * T) xs : splice (length xs) q xs = xs ++ [q].
Proof. unfold splice. by rewrite take_ge, drop_ge by lia. Qed.

Lemma append_represents s xs v :
  represents s xs ->
  (append v s).1 = new_loc (heap s) /\
  _tail (lst (append v s).2) = Some (new_loc (heap s)) /\
  represents (append v s).2 (xs ++ [(new_loc (heap s), v)]).
Proof.
  intros (Hl & Hh & Ht & Hs).
  set (new := new_loc (heap s)).
  pose proof (insert_heap_linked (heap s) xs (length xs) new v Hl
                (Nat.le_refl _) (new_loc_fresh _)) as Hl'.
  rewrite (proj2 (node_at_None xs (length xs))) in Hl' by lia.
  simpl in Hl'. rewrite splice_end in Hl'.
  assert (Hlast : node_at (xs ++ [(new, v)]) (length xs) = Some new).
  { unfold node_at. by rewrite list_lookup_middle. }
  unfold append. rewrite Ht. fold new.
  destruct (node_before xs (length xs)) as [t|] eqn:Htl; simpl;
    (split; [done|]); (split; [done|]);
    (split; [exact Hl'|]); simpl; rewrite length_app; simpl;
    rewrite Nat.add_1_r; simpl; rewrite Hlast;
    (split; [|split; [done|lia]]).
  - rewrite Hh. unfold node_at. rewrite lookup_app_l; [done|].
    destruct xs; [done|]. simpl. lia.
  - destruct xs as [|x xs']; [done|].
    simpl in Htl. apply node_at_None in Htl. simpl in Htl. lia.
Qed.

Lemma appendleft_represents s xs v :
  represents s xs ->
  (appendleft v s).1 = new_loc (heap s) /\
  _head (lst (appendleft v s).2) = Some (new_loc (heap s)) /\
  represents (appendleft v s).2 ((new_loc (heap s), v) :: xs).
Proof.
  intros (Hl & Hh & Ht & Hs).
  set (new := new_loc (heap s)).
  pose proof (insert_heap_linked (heap s) xs 0 new v Hl
                (Nat.le_0_l _) (new_loc_fresh _)) as Hl'.
  simpl in Hl'. unfold splice in Hl'. rewrite take_0, drop_0 in Hl'.
  simpl in Hl'.
  unfold appendleft. rewrite Hh. fold new.
  destruct (node_at xs 0) as [hd|] eqn:Hhd; simpl;
    (split; [done|]); (split; [done|]);
    (split; [exact Hl'|]); simpl; (split; [done|]); (split; [|lia]).
  - rewrite Ht. destruct xs as [|x xs']; [done|]. simpl.
    destruct (length xs'); done.
  - apply node_at_None in Hhd. destruct xs; [done|]. simpl in Hhd. lia.
Qed.

Lemma remove_node_represents s xs p n w :
  represents s xs -> xs !! p = Some (n, w) ->
  exists s', remove_node n s = (Ok tt, s') /\ represents s' (delete p xs).
Proof.
  intros Hr Hp. pose proof (represents_node _ _ _ _ _ Hr Hp) as Hn.
  destruct Hr as (Hl & Hh & Ht & Hs).
  pose proof (lookup_lt_Some _ _ _ Hp) as Hlt.
  pose proof (length_delete_Some _ _ _ Hp) as Hlen.
  pose proof (remove_heap_linked (heap s) xs p n w Hl Hp) as Hl'.
  unfold remove_node. rewrite Hn. simpl.
  destruct (node_before xs p) as [pv|] eqn:Hpv;
    destruct (node_at xs (S p)) as [nx|] eqn:Hnx; simpl;
    (eexists; split; [reflexivity|]);
    (split; [exact Hl'|]); simpl;
    rewrite node_at_delete, node_before_delete;
    (split; [|split; [|lia]]).
  - destruct p; [done|]. by rewrite decide_True by lia.
  - apply node_at_Some in Hnx as [? Hnx%lookup_lt_Some].
    rewrite Ht, decide_False by lia.
    destruct (length xs) as [|m]; [lia|]. simpl.
    f_equal. lia.
  - destruct p; [done|]. by rewrite decide_True by lia.
  - apply node_at_None in Hnx.
    assert (length (delete p xs) = p) as -> by lia.
    by rewrite decide_True by lia.
  - destruct p; [by rewrite decide_False by lia|].
    simpl in Hpv. apply node_at_None in Hpv. lia.
  - apply node_at_Some in Hnx as [? Hnx%lookup_lt_Some].
    rewrite Ht, decide_False by lia.
    destruct (length xs) as [|m]; [lia|]. simpl.
    f_equal. lia.
  - destruct p; [rewrite decide_False by lia; done|].
    simpl in Hpv. apply node_at_None in Hpv. lia.
  - apply node_at_None in Hnx.
    assert (length (delete p xs) = p) as -> by lia.
    by rewrite decide_True by lia.
Qed.

Lemma pop_empty s : represents s [] ->
  pop s = (Raise (IndexError "pop from empty list"), s).
Proof. intros (_ & _ & Ht & _). unfold pop. by rewrite Ht. Qed.

Lemma popleft_empty s : represents s [] ->
  popleft s = (Raise (IndexError "popleft from empty list"), s).
Proof. intros (_ & Hh & _ & _). unfold popleft. by rewrite Hh. Qed.

Lemma pop_represents s ys n w :
  represents s (ys ++ [(n, w)]) ->
  exists s', pop s = (Ok w, s') /\ represents s' ys.
Proof.
  intros Hr.
  assert (Hp : (ys ++ [(n, w)]) !! length ys = Some (n, w))
    by apply list_lookup_middle, eq_refl.
  destruct (remove_node_represents _ _ _ _ _ Hr Hp) as (s' & Hrm & Hr').
  pose proof (represents_node _ _ _ _ _ Hr Hp) as Hn.
  destruct Hr as (_ & _ & Ht & _).
  unfold pop. rewrite Ht, length_app. simpl. rewrite Nat.add_1_r. simpl.
  unfold node_at. rewrite Hp. simpl. rewrite Hn, Hrm. simpl.
  exists s'. split; [done|].
  by rewrite delete_middle, app_nil_r in Hr'.
Qed.

Lemma popleft_represents s ys n w :
  represents s ((n, w) :: ys) ->
  exists s', popleft s = (Ok w, s') /\ represents s' ys.
Proof.
  intros Hr.
  assert (Hp : ((n, w) :: ys) !! 0%nat = Some (n, w)) by done.
  destruct (remove_node_represents _ _ _ _ _ Hr Hp) as (s' & Hrm & Hr').
  pose proof (represents_node _ _ _ _ _ Hr Hp) as Hn.
  destruct Hr as (_ & Hh & _ & _).
  unfold popleft. rewrite Hh. simpl. rewrite Hn, Hrm. simpl.
  exists s'. done.
Qed.

(** *** What the code observes of a well-formed list *)

Lemma represents_len s xs : represents s xs -> len s = Z.of_nat (length xs).
Proof. by intros (_ & _ & _ & Hs). Qed.

Lemma represents_iter s xs fuel :
  represents s xs -> (length xs <= fuel)%nat -> iter fuel s = Some xs.*2.
Proof.
  intros (Hl & Hh & _ & _) Hf. unfold iter. rewrite Hh.
  by rewrite (traverse_next_linked _ _ _ Hl (length xs) 0 fuel).
Qed.

Lemma represents_walk_next s xs fuel :
  represents s xs -> (length xs <= fuel)%nat -> walk_next fuel s = Some xs.*1.
Proof.
  intros (Hl & Hh & _ & _) Hf. unfold walk_next. rewrite Hh.
  by rewrite (traverse_next_linked _ _ _ Hl (length xs) 0 fuel).
Qed.

Lemma represents_reversed s xs fuel :
  represents s xs -> (length xs <= fuel)%nat ->
  reversed fuel s = Some (reverse xs.*2).
Proof.
  intros (Hl & _ & Ht & _) Hf. unfold reversed. rewrite Ht.
  rewrite (traverse_prev_linked _ _ _ Hl (length xs) fuel) by lia.
  by rewrite firstn_all.
Qed.

Lemma represents_walk_prev s xs fuel :
  represents s xs -> (length xs <= fuel)%nat ->
  walk_prev fuel s = Some (reverse xs.*1).
Proof.
  intros (Hl & _ & Ht & _) Hf. unfold walk_prev. rewrite Ht.
  rewrite (traverse_prev_linked _ _ _ Hl (length xs) fuel) by lia.
  by rewrite firstn_all.
Qed.

Lemma represents_contents s xs : represents s xs -> contents s = Some xs.*2.
Proof.
  intros Hr. unfold contents. rewrite (represents_len _ _ Hr).
  apply represents_iter; [done|lia].
Qed.

Lemma represents_nodes s xs : represents s xs -> nodes s = Some xs.*1.
Proof.
  intros Hr. apply represents_walk_next; [done|].
  destruct Hr as [Hl _]. by apply linked_length.
Qed.

Lemma represents_belongs s xs n :
  represents s xs -> belongs n s = true <-> exists p w, xs !! p = Some (n, w).
Proof.
  intros Hr. unfold belongs. rewrite (represents_nodes _ _ Hr).
  rewrite bool_decide_eq_true, list_elem_of_lookup.
  split.
  - intros [p Hp]. rewrite <- node_at_fst in Hp.
    apply node_at_Some in Hp. eauto.
  - intros (p & w & Hp). exists p. by rewrite list_lookup_fmap, Hp.
Qed.

Lemma represents_invariants s xs : represents s xs -> structural_invariants s.
Proof.
  intros Hr. pose proof Hr as (Hl & Hh & Ht & Hs).
  unfold structural_invariants, len. rewrite Hh, Ht, Hs.
  split; [|split].
  - destruct xs; simpl; [done|]. split; [lia|done].
  - destruct xs as [|x xs']; simpl; [done|]. split; [done|].
    intros Hge%node_at_None. simpl in Hge. lia.
  - exists xs.*1, xs.*2. rewrite !length_fmap.
    split; [done|]. split; [done|]. split; [|split; [|split]].
    + rewrite last_lookup, length_fmap. destruct (length xs) eqn:E.
      * by destruct xs.
      * simpl. by rewrite node_at_fst.
    + by rewrite last_reverse, head_lookup, node_at_fst.
    + intros fuel Hf.
      rewrite (represents_walk_next s xs), (represents_walk_prev s xs),
        (represents_iter s xs), (represents_reversed s xs) by (done || lia).
      done.
    + intros fuel Hf. unfold walk_next, walk_prev. rewrite Hh, Ht.
      rewrite (traverse_next_short _ _ _ Hl fuel (length xs) 0) by lia.
      by rewrite (traverse_prev_short _ _ _ Hl fuel (length xs)) by lia.
Qed.

Lemma init_represents h : represents (mkState h init) [].
Proof.
  split; [|done]. split; [constructor|]. intros i l v Hi. done.
Qed.

Lemma well_formed_len_0 s : well_formed s -> len s = 0 -> represents s [].
Proof.
  intros [xs Hr] Hlen. rewrite (represents_len _ _ Hr) in Hlen.
  destruct xs; [done|]. simpl in Hlen. lia.
Qed.

(** *** Sequences of operations keep the list well formed *)

Lemma exec_well_formed o s :
  well_formed s -> admissible o s = true -> well_formed (exec o s).
Proof.
  intros [xs Hr] Hadm. destruct o as [v|v| | |n v|n v|n]; simpl in *.
  - eexists. apply (append_represents s xs v Hr).
  - eexists. apply (appendleft_represents s xs v Hr).
  - destruct xs as [|[n w] ys _] using rev_ind.
    + rewrite (pop_empty s Hr). by exists [].
    + destruct (pop_represents s ys n w Hr) as (s' & -> & Hr'). by exists ys.
  - destruct xs as [|[n w] ys].
    + rewrite (popleft_empty s Hr). by exists [].
    + destruct (popleft_represents s ys n w Hr) as (s' & -> & Hr').
      by exists ys.
  - apply (represents_belongs s xs n Hr) in Hadm as (p & w & Hp).
    destruct (insert_after_represents s xs p n w v Hr Hp) as (s' & -> & Hr').
    by eexists.
  - apply (represents_belongs s xs n Hr) in Hadm as (p & w & Hp).
    destruct (insert_before_represents s xs p n w v Hr Hp) as (s' & -> & Hr').
    by eexists.
  - apply (represents_belongs s xs n Hr) in Hadm as (p & w & Hp).
    destruct (remove_node_represents s xs p n w Hr Hp) as (s' & -> & Hr').
    by eexists.
Qed.

Lemma run_well_formed ops s :
  well_formed s -> admissible_run ops s = true -> well_formed (run ops s).
Proof.
  revert s. induction ops as [|o ops IH]; intros s Hwf Hadm; [done|].
  simpl in Hadm. apply andb_true_iff in Hadm as [Ho Hops].
  simpl. apply IH; [|done]. by apply exec_well_formed.
Qed.

Lemma splice_then_delete k (q : loc * T) xs :
  (k <= length xs)%nat -> delete k (splice k q xs) = xs.
Proof.
  intros Hk. unfold splice.
  rewrite <- (length_take_le xs k) at 1 by done.
  by rewrite delete_middle, take_drop.
Qed.

Lemma represents_lst s s' xs :
  represents s xs -> represents s' xs -> lst s' = lst s.
Proof.
  intros (_ & Hh & Ht & Hs) (_ & Hh' & Ht' & Hs').
  destruct (lst s), (lst s'). simpl in *. congruence.
Qed.

End Proofs.
(** *** The claims on the container *)

(** C1: every sequence of [append], [appendleft], [pop], [popleft],
    [insert_after], [insert_before] and [remove_node] run on a new list,
    each insertion and removal applied to a node that belongs to the list
    at that time, leaves a list that satisfies the structural invariants:
    the size is 0 iff the head is absent iff the tail is absent; the forward
    traversal visits exactly [size] nodes and ends at the tail, the backward
    one visits exactly [size] nodes and ends at the head; the backward
    traversal yields the reverse of the forward one; and [__len__] is the
    number of values either of them yields. *)
Theorem C1_operations_preserve_invariants {T : Type}
    (h0 : gmap loc (Node T)) (ops : list (op T)) :
  admissible_run ops (mkState h0 init) = true ->
  structural_invariants (run ops (mkState h0 init)).
Proof.
  intros Hadm.
  destruct (run_well_formed ops (mkState h0 init)) as [xs Hr]; [|done|].
  - exists []. apply init_represents.
  - by apply (represents_invariants _ xs).
Qed.

Lemma C1_operations_preserve_invariants_witness :
  admissible_run sample_ops (mkState ∅ init) = true /\
  structural_invariants (run sample_ops (mkState ∅ init)).
Proof.
  split; [vm_compute; reflexivity|].
  apply (C1_operations_preserve_invariants ∅ sample_ops).
  vm_compute; reflexivity.
Defined.

(** C6: on a well-formed list, [append v] links the new node after the
    current tail and makes it the tail, [appendleft v] links it before the
    current head and makes it the head, [pop] removes the tail and returns
    its value, [popleft] removes the head and returns its value.  On an
    empty list, [append 1; append 2; appendleft 0] gives the forward
    traversal [0; 1; 2], then [pop] returns 2 and leaves [0; 1], then
    [popleft] returns 0 and leaves [1]. *)
Theorem C6_append_appendleft_pop_popleft :
  (forall (T : Type) (s : state T) (vs : list T) (v : T),
     well_formed s -> contents s = Some vs ->
     (let r := append v s in
      well_formed r.2 /\ contents r.2 = Some (vs ++ [v]) /\
      _tail (lst r.2) = Some r.1 /\
      heap r.2 !! r.1 = Some (mkNode v (_tail (lst s)) None) /\
      (forall t, _tail (lst s) = Some t ->
         next <$> heap r.2 !! t = Some (Some r.1))) /\
     (let r := appendleft v s in
      well_formed r.2 /\ contents r.2 = Some (v :: vs) /\
      _head (lst r.2) = Some r.1 /\
      heap r.2 !! r.1 = Some (mkNode v None (_head (lst s))) /\
      (forall t, _head (lst s) = Some t ->
         prev <$> heap r.2 !! t = Some (Some r.1)))) /\
  (forall (T : Type) (s : state T) (vs : list T) (v : T),
     well_formed s ->
     (contents s = Some (vs ++ [v]) ->
      exists s', pop s = (Ok v, s') /\ well_formed s' /\
                 contents s' = Some vs) /\
     (contents s = Some (v :: vs) ->
      exists s', popleft s = (Ok v, s') /\ well_formed s' /\
                 contents s' = Some vs)) /\
  (let s0 : state Z := mkState ∅ init in
   let s3 := (appendleft 0 (append 2 (append 1 s0).2).2).2 in
   iter 3 s3 = Some [0; 1; 2] /\
   (pop s3).1 = Ok 2 /\ iter 2 (pop s3).2 = Some [0; 1] /\
   (popleft (pop s3).2).1 = Ok 0 /\
   iter 1 (popleft (pop s3).2).2 = Some [1]).
Proof.
  split; [|split].
  - intros T s vs v [xs Hr] Hc.
    rewrite (represents_contents _ _ Hr) in Hc. simplify_eq. split.
    + destruct (append_represents s xs v Hr) as (Hn & Ht & Hr').
      cbv zeta. rewrite Hn.
      split; [by eexists|]. split.
      { rewrite (represents_contents _ _ Hr'), fmap_app. done. }
      split; [done|].
      pose proof Hr as (_ & _ & Hts & _).
      assert (Hlast : (xs ++ [(new_loc (heap s), v)]) !! length xs
                      = Some (new_loc (heap s), v))
        by apply list_lookup_middle, eq_refl.
      split.
      * rewrite (represents_node _ _ _ _ _ Hr' Hlast).
        rewrite Hts. do 2 f_equal.
        { destruct (length xs) as [|m] eqn:E; [done|]. simpl.
          unfold node_at. rewrite lookup_app_l by lia. done. }
        { apply node_at_None. rewrite length_app. simpl. lia. }
      * intros t Htl. rewrite Hts in Htl.
        destruct (length xs) as [|m] eqn:E; [done|]. simpl in Htl.
        apply node_at_Some in Htl as [w Hm].
        assert (Hm' : (xs ++ [(new_loc (heap s), v)]) !! m = Some (t, w))
          by (rewrite lookup_app_l; [done|lia]).
        rewrite (represents_node _ _ _ _ _ Hr' Hm'). simpl.
        unfold node_at. by rewrite Hlast.
    + destruct (appendleft_represents s xs v Hr) as (Hn & Hh & Hr').
      cbv zeta. rewrite Hn.
      split; [by eexists|]. split.
      { by rewrite (represents_contents _ _ Hr'). }
      split; [done|].
      pose proof Hr as (_ & Hhs & _ & _).
      assert (Hfirst : ((new_loc (heap s), v) :: xs) !! 0%nat
                       = Some (new_loc (heap s), v)) by done.
      split.
      * rewrite (represents_node _ _ _ _ _ Hr' Hfirst). by rewrite Hhs.
      * intros t Hhd. rewrite Hhs in Hhd.
        apply node_at_Some in Hhd as [w Hm].
        assert (Hm' : ((new_loc (heap s), v) :: xs) !! 1%nat = Some (t, w))
          by done.
        by rewrite (represents_node _ _ _ _ _ Hr' Hm').
  - intros T s vs v [xs Hr]. split; intros Hc;
      rewrite (represents_contents _ _ Hr) in Hc; simplify_eq.
    + destruct xs as [|[n w] ys _] using rev_ind.
      { by destruct vs. }
      rewrite fmap_app in Hc. simpl in Hc.
      apply app_inj_tail in Hc as [<- <-].
      destruct (pop_represents s ys n w Hr) as (s' & Hp & Hr').
      exists s'. split; [done|]. split; [by exists ys|].
      by apply represents_contents.
    + destruct xs as [|[n w] ys]; [done|]. simpl in Hc. simplify_eq.
      destruct (popleft_represents s ys n _ Hr) as (s' & Hp & Hr').
      exists s'. split; [done|]. split; [by exists ys|].
      by apply represents_contents.
  - vm_compute. done.
Qed.

Lemma two_elements_well_formed : well_formed two_elements.
Proof.
  apply run_well_formed; [|vm_compute; reflexivity].
  exists []. apply init_represents.
Qed.

Lemma C6_append_appendleft_pop_popleft_witness :
  contents (append 3 two_elements).2 = Some [1; 2; 3] /\
  contents (appendleft 3 two_elements).2 = Some [3; 1; 2] /\
  (exists s', pop two_elements = (Ok 2, s') /\ contents s' = Some [1]) /\
  (exists s', popleft two_elements = (Ok 1, s') /\ contents s' = Some [2]).
Proof.
  destruct C6_append_appendleft_pop_popleft as (Hins & Hdel & _).
  destruct (Hins Z two_elements [1; 2] 3 two_elements_well_formed eq_refl)
    as ((_ & Ha & _) & (_ & Hb & _)).
  destruct (Hdel Z two_elements [1] 2 two_elements_well_formed) as [Hpop _].
  destruct (Hdel Z two_elements [2] 1 two_elements_well_formed) as [_ Hpopl].
  split; [exact Ha|]. split; [exact Hb|]. split.
  - destruct (Hpop eq_refl) as (s' & H1 & _ & H2). by exists s'.
  - destruct (Hpopl eq_refl) as (s' & H1 & _ & H2). by exists s'.
Defined.

(** C7: [pop] and [popleft] on a list of size 0 raise [IndexError] (the
    spec's [EmptyContainer]) and leave the state as it was, head, tail and
    size included; [append v] followed by [pop] after the failed call
    returns [v]. *)
Theorem C7_pop_on_empty {T : Type} (s : state T) :
  well_formed s -> len s = 0 ->
  pop s = (Raise (IndexError "pop from empty list"), s) /\
  popleft s = (Raise (IndexError "popleft from empty list"), s) /\
  forall v : T,
    (pop (append v (pop s).2).2).1 = Ok v /\
    (pop (append v (popleft s).2).2).1 = Ok v.
Proof.
  intros Hwf Hlen. pose proof (well_formed_len_0 s Hwf Hlen) as Hr.
  rewrite (pop_empty s Hr), (popleft_empty s Hr).
  split; [done|]. split; [done|]. intros v. simpl.
  destruct (append_represents s [] v Hr) as (_ & _ & Hr').
  destruct (pop_represents _ [] _ v Hr') as (s' & -> & _). done.
Qed.

Lemma C7_pop_on_empty_witness :
  pop (mkState (T:=Z) ∅ init)
    = (Raise (IndexError "pop from empty list"), mkState ∅ init) /\
  (pop (append 4 (pop (mkState (T:=Z) ∅ init)).2).2).1 = Ok 4.
Proof.
  destruct (C7_pop_on_empty (mkState (T:=Z) ∅ init)) as (H1 & _ & H2).
  - exists []. apply init_represents.
  - reflexivity.
  - split; [exact H1|]. exact (proj1 (H2 4)).
Defined.

(** C8: on a well-formed list and a node [n] that belongs to it,
    [insert_after n v] followed by [remove_node] on the node just inserted
    gives back the forward traversal and the length there were before (and
    the head and the tail). *)
Theorem C8_insert_after_then_remove {T : Type} (s : state T) (n : loc)
    (v : T) (vs : list T) :
  well_formed s -> belongs n s = true -> contents s = Some vs ->
  exists new s1 s2,
    insert_after n v s = (Ok new, s1) /\
    remove_node new s1 = (Ok tt, s2) /\
    contents s2 = Some vs /\
    (forall fuel, len s <= Z.of_nat fuel -> iter fuel s2 = iter fuel s) /\
    len s2 = len s /\
    lst s2 = lst s.
Proof.
  intros [xs Hr] Hb Hc.
  apply (represents_belongs s xs n Hr) in Hb as (p & w & Hp).
  pose proof (lookup_lt_Some _ _ _ Hp) as Hlt.
  destruct (insert_after_represents s xs p n w v Hr Hp) as (s1 & Hins & Hr1).
  assert (Hnew : splice (S p) (new_loc (heap s), v) xs !! S p
                 = Some (new_loc (heap s), v)).
  { rewrite lookup_splice by lia. rewrite decide_False by lia.
    by rewrite decide_True. }
  destruct (remove_node_represents s1 _ (S p) _ v Hr1 Hnew)
    as (s2 & Hrm & Hr2).
  rewrite splice_then_delete in Hr2 by lia.
  exists (new_loc (heap s)), s1, s2.
  split; [done|]. split; [done|].
  pose proof (represents_lst s s2 xs Hr Hr2) as Hlst.
  split; [by rewrite (represents_contents _ _ Hr2), <- Hc,
            (represents_contents _ _ Hr)|].
  split; [|split; [unfold len; by rewrite Hlst|done]].
  intros fuel Hf. rewrite (represents_len _ _ Hr) in Hf.
  rewrite (represents_iter s2 xs), (represents_iter s xs) by (done || lia).
  done.
Qed.

Lemma C8_insert_after_then_remove_witness :
  belongs 1%positive two_elements = true /\
  contents two_elements = Some [1; 2] /\
  exists new s1 s2,
    insert_after 1%positive 8 two_elements = (Ok new, s1) /\
    remove_node new s1 = (Ok tt, s2) /\
    contents s2 = Some [1; 2].
Proof.
  split; [vm_compute; reflexivity|]. split; [vm_compute; reflexivity|].
  destruct (C8_insert_after_then_remove two_elements 1%positive 8 [1; 2]
              two_elements_well_formed eq_refl eq_refl)
    as (new & s1 & s2 & H1 & H2 & H3 & _).
  exists new, s1, s2. done.
Defined.

End DLLProofs.

(** ** Further properties of doubly_linked_list.py *)
Module DLLExtra.
Import DLL DLLProofs.

Section Views.
Context {T : Type}.
Implicit Types (xs : list (loc * T)) (s : state T) (n : loc) (v : T).

(** What [nodes] and [contents] give on a well-formed list is the two
    projections of the sequence it stands for. *)
Lemma well_formed_view s ns vs :
  well_formed s -> nodes s = Some ns -> contents s = Some vs ->
  exists xs, represents s xs /\ ns = xs.*1 /\ vs = xs.*2.
Proof.
  intros [xs Hr] Hn Hc. exists xs. split; [done|].
  rewrite (represents_nodes _ _ Hr) in Hn.
  rewrite (represents_contents _ _ Hr) in Hc. by simplify_eq.
Qed.

Lemma lookup_fst_inv xs p n :
  xs.*1 !! p = Some n -> exists w, xs !! p = Some (n, w) /\ xs.*2 !! p = Some w.
Proof.
  rewrite !list_lookup_fmap.
  destruct (xs !! p) as [[n' w]|]; simpl; [|done].
  intros [= ->]. eauto.
Qed.

Lemma splice_fst k (q : loc * T) xs :
  (splice k q xs).*1 = take k xs.*1 ++ q.1 :: drop k xs.*1.
Proof. unfold splice. by rewrite fmap_app, fmap_cons, fmap_take, fmap_drop. Qed.

Lemma splice_snd k (q : loc * T) xs :
  (splice k q xs).*2 = take k xs.*2 ++ q.2 :: drop k xs.*2.
Proof. unfold splice. by rewrite fmap_app, fmap_cons, fmap_take, fmap_drop. Qed.

Lemma delete_fmap {A B} (f : A -> B) (l : list A) i :
  f <$> delete i l = delete i (f <$> l).
Proof.
  revert i. induction l as [|a l IH]; intros [|i]; simpl; try done.
  by rewrite IH.
Qed.

Lemma represents_view s xs :
  represents s xs ->
  well_formed s /\ nodes s = Some xs.*1 /\ contents s = Some xs.*2 /\
  len s = Z.of_nat (length xs).
Proof.
  intros Hr. split; [by exists xs|].
  split; [by apply represents_nodes|].
  split; [by apply represents_contents|by apply represents_len].
Qed.

End Views.

(** X1: on a well-formed list, [insert_after n v] returns a node that was
    not stored before and places it, with value [v], immediately after
    [n]: the nodes and the values before and after that place are as they
    were, in the same order, and the length grows by one. *)
Theorem X1_insert_after_position {T : Type} (s : state T) (n : loc) (v : T)
    (ns : list loc) (vs : list T) (p : nat) :
  well_formed s -> nodes s = Some ns -> contents s = Some vs ->
  ns !! p = Some n ->
  exists new s',
    insert_after n v s = (Ok new, s') /\
    heap s !! new = None /\
    well_formed s' /\
    nodes s' = Some (take (S p) ns ++ new :: drop (S p) ns) /\
    contents s' = Some (take (S p) vs ++ v :: drop (S p) vs) /\
    len s' = len s + 1.
Proof.
  intros Hwf Hn Hc Hp.
  destruct (well_formed_view s ns vs Hwf Hn Hc) as (xs & Hr & -> & ->).
  destruct (lookup_fst_inv xs p n Hp) as (w & Hxs & _).
  destruct (insert_after_represents s xs p n w v Hr Hxs) as (s' & Hins & Hr').
  destruct (represents_view _ _ Hr') as (Hwf' & Hn' & Hc' & Hl').
  exists (new_loc (heap s)), s'. split; [done|].
  split; [apply new_loc_fresh|]. split; [done|].
  rewrite Hn', Hc', Hl', splice_fst, splice_snd, length_splice.
  rewrite (represents_len _ _ Hr). split; [done|]. split; [done|]. lia.
Qed.

Lemma X1_insert_after_position_witness :
  exists new s',
    insert_after 1%positive 8 three_elements = (Ok new, s') /\
    contents s' = Some [1; 8; 2; 3].
Proof.
  destruct (X1_insert_after_position three_elements 1%positive 8
              [1; 2; 3]%positive [1; 2; 3] 0) as (new & s' & H1 & _ & _ & _ & H2 & _).
  - apply run_well_formed; [|vm_compute; reflexivity].
    exists []. apply init_represents.
  - vm_compute; reflexivity.
  - vm_compute; reflexivity.
  - reflexivity.
  - exists new, s'. split; [exact H1|exact H2].
Defined.

(** X2: on a well-formed list, [insert_before n v] returns a node that was
    not stored before and places it, with value [v], immediately before
    [n]; the rest of the sequence is as it was and the length grows by
    one. *)
Theorem X2_insert_before_position {T : Type} (s : state T) (n : loc) (v : T)
    (ns : list loc) (vs : list T) (p : nat) :
  well_formed s -> nodes s = Some ns -> contents s = Some vs ->
  ns !! p = Some n ->
  exists new s',
    insert_before n v s = (Ok new, s') /\
    heap s !! new = None /\
    well_formed s' /\
    nodes s' = Some (take p ns ++ new :: drop p ns) /\
    contents s' = Some (take p vs ++ v :: drop p vs) /\
    len s' = len s + 1.
Proof.
  intros Hwf Hn Hc Hp.
  destruct (well_formed_view s ns vs Hwf Hn Hc) as (xs & Hr & -> & ->).
  destruct (lookup_fst_inv xs p n Hp) as (w & Hxs & _).
  destruct (insert_before_represents s xs p n w v Hr Hxs) as (s' & Hins & Hr').
  destruct (represents_view _ _ Hr') as (Hwf' & Hn' & Hc' & Hl').
  exists (new_loc (heap s)), s'. split; [done|].
  split; [apply new_loc_fresh|]. split; [done|].
  rewrite Hn', Hc', Hl', splice_fst, splice_snd, length_splice.
  rewrite (represents_len _ _ Hr). split; [done|]. split; [done|]. lia.
Qed.

Lemma X2_insert_before_position_witness :
  exists new s',
    insert_before 1%positive 8 three_elements = (Ok new, s') /\
    contents s' = Some [8; 1; 2; 3].
Proof.
  destruct (X2_insert_before_position three_elements 1%positive 8
              [1; 2; 3]%positive [1; 2; 3] 0) as (new & s' & H1 & _ & _ & _ & H2 & _).
  - apply run_well_formed; [|vm_compute; reflexivity].
    exists []. apply init_represents.
  - vm_compute; reflexivity.
  - vm_compute; reflexivity.
  - reflexivity.
  - exists new, s'. split; [exact H1|exact H2].
Defined.

Section Removal.
Context {T : Type}.
Implicit Types (h : gmap loc (Node T)) (xs : list (loc * T)) (s : state T).
Implicit Types (n : loc) (v : T).

(** Assigning a link never changes a stored value. *)
Lemma value_set_prev m x h n :
  value <$> set_prev m x h !! n = value <$> h !! n.
Proof.
  unfold set_prev. rewrite lookup_alter. case_decide; [subst m|done].
  by destruct (h !! n).
Qed.

Lemma value_set_next m x h n :
  value <$> set_next m x h !! n = value <$> h !! n.
Proof.
  unfold set_next. rewrite lookup_alter. case_decide; [subst m|done].
  by destruct (h !! n).
Qed.

Lemma detach_lookup h n w :
  value <$> h !! n = Some w ->
  set_next n None (set_prev n None h) !! n = Some (mkNode w None None).
Proof.
  unfold set_next, set_prev. rewrite !lookup_alter_eq.
  destruct (h !! n) as [nd|]; simpl; [|done]. by intros [= ->].
Qed.

(** [remove_node] leaves the node with its value and no links. *)
Lemma remove_node_detaches s n w :
  value <$> heap s !! n = Some w ->
  exists s', remove_node n s = (Ok tt, s') /\
    heap s' !! n = Some (mkNode w None None).
Proof.
  intros Hv. unfold remove_node.
  destruct (heap s !! n) as [nd|] eqn:Hn; [|done].
  simpl in Hv. injection Hv as Hv.
  destruct (prev nd) as [pv|], (next nd) as [nx|]; simpl;
    (eexists; split; [reflexivity|]); simpl; apply detach_lookup;
    rewrite ?value_set_prev, ?value_set_next, Hn; simpl; by rewrite Hv.
Qed.

Lemma not_in_delete xs p n w q w' :
  NoDup xs.*1 -> xs !! p = Some (n, w) -> delete p xs !! q = Some (n, w') ->
  False.
Proof.
  intros Hnd Hp Hq. destruct (decide (q < p)%nat).
  - rewrite list_lookup_delete_lt in Hq by done.
    pose proof (position_inj xs q p n w' w Hnd Hq Hp). lia.
  - rewrite list_lookup_delete_ge in Hq by lia.
    pose proof (position_inj xs (S q) p n w' w Hnd Hq Hp). lia.
Qed.

Lemma belongs_false s xs n :
  represents s xs -> (forall q w, xs !! q = Some (n, w) -> False) ->
  belongs n s = false.
Proof.
  intros Hr Hno. destruct (belongs n s) eqn:E; [|done].
  apply (represents_belongs s xs n Hr) in E as (q & w & Hq).
  destruct (Hno q w Hq).
Qed.

Lemma represents_tail_snoc s ys n w :
  represents s (ys ++ [(n, w)]) -> _tail (lst s) = Some n.
Proof.
  intros (_ & _ & Ht & _). rewrite Ht, length_app. simpl.
  rewrite Nat.add_1_r. simpl. unfold node_at.
  by rewrite list_lookup_middle.
Qed.

Lemma represents_head_cons s ys n w :
  represents s ((n, w) :: ys) -> _head (lst s) = Some n.
Proof. by intros (_ & Hh & _ & _). Qed.

End Removal.

(** X3: on a well-formed list, [remove_node n] takes out exactly the node
    [n] and its value and keeps the others in order; the length drops by
    one; [n] is left with its value and with both links cleared, and no
    longer belongs to the list. *)
Theorem X3_remove_node_unlinks {T : Type} (s : state T) (n : loc)
    (ns : list loc) (vs : list T) (p : nat) :
  well_formed s -> nodes s = Some ns -> contents s = Some vs ->
  ns !! p = Some n ->
  exists s' w,
    remove_node n s = (Ok tt, s') /\
    well_formed s' /\
    nodes s' = Some (delete p ns) /\
    contents s' = Some (delete p vs) /\
    len s' = len s - 1 /\
    vs !! p = Some w /\
    heap s' !! n = Some (mkNode w None None) /\
    belongs n s' = false.
Proof.
  intros Hwf Hn Hc Hp.
  destruct (well_formed_view s ns vs Hwf Hn Hc) as (xs & Hr & -> & ->).
  destruct (lookup_fst_inv xs p n Hp) as (w & Hxs & Hw).
  destruct (remove_node_represents s xs p n w Hr Hxs) as (s' & Hrm & Hr').
  destruct (represents_view _ _ Hr') as (Hwf' & Hn' & Hc' & Hl').
  destruct (remove_node_detaches s n w) as (s'' & Hrm' & Hdet).
  { by rewrite (represents_node _ _ _ _ _ Hr Hxs). }
  rewrite Hrm in Hrm'. simplify_eq.
  exists s'', w. split; [done|]. split; [done|].
  rewrite Hn', Hc', Hl', !delete_fmap.
  split; [done|]. split; [done|].
  split; [rewrite (represents_len _ _ Hr), (length_delete_Some _ _ _ Hxs); lia|].
  split; [done|]. split; [done|].
  apply (belongs_false s'' (delete p xs) n Hr'). intros q w' Hq.
  destruct Hr as [[Hnd _] _]. exact (not_in_delete xs p n w q w' Hnd Hxs Hq).
Qed.

Lemma X3_remove_node_unlinks_witness :
  exists s',
    remove_node 2%positive three_elements = (Ok tt, s') /\
    contents s' = Some [1; 3] /\
    heap s' !! 2%positive = Some (mkNode 2 None None).
Proof.
  destruct (X3_remove_node_unlinks three_elements 2%positive
              [1; 2; 3]%positive [1; 2; 3] 1)
    as (s' & w & H1 & _ & _ & H2 & _ & H3 & H4 & _).
  - apply run_well_formed; [|vm_compute; reflexivity].
    exists []. apply init_represents.
  - vm_compute; reflexivity.
  - vm_compute; reflexivity.
  - reflexivity.
  - exists s'. split; [exact H1|]. split; [exact H2|].
    injection H3 as <-. exact H4.
Defined.

(** X4: on a well-formed list and a node [n] of it, [insert_before n v]
    followed by [remove_node] on the node just inserted gives back the
    forward traversal, the length, the head and the tail there were. *)
Theorem X4_insert_before_then_remove {T : Type} (s : state T) (n : loc)
    (v : T) (vs : list T) :
  well_formed s -> belongs n s = true -> contents s = Some vs ->
  exists new s1 s2,
    insert_before n v s = (Ok new, s1) /\
    remove_node new s1 = (Ok tt, s2) /\
    contents s2 = Some vs /\
    lst s2 = lst s.
Proof.
  intros [xs Hr] Hb Hc.
  apply (represents_belongs s xs n Hr) in Hb as (p & w & Hp).
  pose proof (lookup_lt_Some _ _ _ Hp) as Hlt.
  destruct (insert_before_represents s xs p n w v Hr Hp) as (s1 & Hins & Hr1).
  assert (Hnew : splice p (new_loc (heap s), v) xs !! p
                 = Some (new_loc (heap s), v)).
  { rewrite lookup_splice by lia. rewrite decide_False by lia.
    by rewrite decide_True. }
  destruct (remove_node_represents s1 _ p _ v Hr1 Hnew) as (s2 & Hrm & Hr2).
  rewrite splice_then_delete in Hr2 by lia.
  exists (new_loc (heap s)), s1, s2.
  split; [done|]. split; [done|].
  split; [|by apply (represents_lst s s2 xs)].
  by rewrite (represents_contents _ _ Hr2), <- Hc, (represents_contents _ _ Hr).
Qed.

Lemma X4_insert_before_then_remove_witness :
  exists new s1 s2,
    insert_before 2%positive 8 three_elements = (Ok new, s1) /\
    remove_node new s1 = (Ok tt, s2) /\
    contents s2 = Some [1; 2; 3].
Proof.
  destruct (X4_insert_before_then_remove three_elements 2%positive 8 [1; 2; 3])
    as (new & s1 & s2 & H1 & H2 & H3 & _).
  - apply run_well_formed; [|vm_compute; reflexivity].
    exists []. apply init_represents.
  - vm_compute; reflexivity.
  - vm_compute; reflexivity.
  - exists new, s1, s2. split; [exact H1|]. split; [exact H2|exact H3].
Defined.

(** X5: on a well-formed list, [append v] followed by [pop] returns [v],
    and [appendleft v] followed by [popleft] returns [v]; either pair
    gives back the forward traversal, the head, the tail and the size
    there were. *)
Theorem X5_append_pop_round_trip {T : Type} (s : state T) (v : T) :
  well_formed s ->
  (exists s2, pop (append v s).2 = (Ok v, s2) /\
     lst s2 = lst s /\ contents s2 = contents s) /\
  (exists s2, popleft (appendleft v s).2 = (Ok v, s2) /\
     lst s2 = lst s /\ contents s2 = contents s).
Proof.
  intros [xs Hr]. split.
  - destruct (append_represents s xs v Hr) as (_ & _ & Hr1).
    destruct (pop_represents _ xs _ v Hr1) as (s2 & Hpop & Hr2).
    exists s2. split; [done|]. split; [by apply (represents_lst s s2 xs)|].
    by rewrite (represents_contents _ _ Hr2), (represents_contents _ _ Hr).
  - destruct (appendleft_represents s xs v Hr) as (_ & _ & Hr1).
    destruct (popleft_represents _ xs _ v Hr1) as (s2 & Hpop & Hr2).
    exists s2. split; [done|]. split; [by apply (represents_lst s s2 xs)|].
    by rewrite (represents_contents _ _ Hr2), (represents_contents _ _ Hr).
Qed.

Lemma X5_append_pop_round_trip_witness :
  exists s2, pop (append 9 three_elements).2 = (Ok 9, s2) /\
    contents s2 = Some [1; 2; 3].
Proof.
  destruct (X5_append_pop_round_trip three_elements 9) as [(s2 & H1 & _ & H2) _].
  - apply run_well_formed; [|vm_compute; reflexivity].
    exists []. apply init_represents.
  - exists s2. split; [exact H1|]. rewrite H2. vm_compute; reflexivity.
Defined.

(** X6: on a well-formed list, [insert_after] on the tail does exactly
    what [append] does, and [insert_before] on the head exactly what
    [appendleft] does: same node returned, same state left. *)
Theorem X6_insert_at_ends_is_append {T : Type} (s : state T) (v : T) :
  well_formed s ->
  (forall t, _tail (lst s) = Some t ->
     insert_after t v s = (Ok (append v s).1, (append v s).2)) /\
  (forall hd, _head (lst s) = Some hd ->
     insert_before hd v s = (Ok (appendleft v s).1, (appendleft v s).2)).
Proof.
  intros [xs Hr]. pose proof Hr as (Hl & Hh & Ht & _). split.
  - intros t Htl. rewrite Ht in Htl.
    destruct (length xs) as [|m] eqn:E; [done|]. simpl in Htl.
    apply node_at_Some in Htl as [w Hm].
    pose proof (represents_node _ _ _ _ _ Hr Hm) as Hn.
    rewrite (proj2 (node_at_None xs (S m))) in Hn by lia.
    assert (Htl : _tail (lst s) = Some t).
    { rewrite Ht. simpl. unfold node_at. by rewrite Hm. }
    unfold insert_after, append. by rewrite Hn, Htl.
  - intros hd Hhd. pose proof Hhd as Hhd'. rewrite Hh in Hhd.
    apply node_at_Some in Hhd as [w Hm].
    pose proof (represents_node _ _ _ _ _ Hr Hm) as Hn. simpl in Hn.
    unfold insert_before, appendleft. by rewrite Hn, Hhd'.
Qed.

Lemma X6_insert_at_ends_is_append_witness :
  insert_after 3%positive 9 three_elements
    = (Ok (append 9 three_elements).1, (append 9 three_elements).2) /\
  insert_before 1%positive 9 three_elements
    = (Ok (appendleft 9 three_elements).1, (appendleft 9 three_elements).2).
Proof.
  destruct (X6_insert_at_ends_is_append three_elements 9) as [H1 H2].
  - apply run_well_formed; [|vm_compute; reflexivity].
    exists []. apply init_represents.
  - split; [apply H1|apply H2]; vm_compute; reflexivity.
Defined.

Section Stability.
Context {T : Type}.
Implicit Types (xs : list (loc * T)) (s : state T) (n : loc) (v : T).

Lemma traverse_None {A} (link : Node T -> option loc) (out : loc -> T -> A)
    fuel (h : gmap loc (Node T)) :
  traverse link out fuel h None = Some [].
Proof. by destruct fuel. Qed.

(** A node that an operation does not unlink keeps its place in the
    sequence the list stands for. *)
Lemma exec_keeps_node o s xs p n w :
  represents s xs -> xs !! p = Some (n, w) ->
  admissible o s = true -> unlinks o s <> Some n ->
  exists xs' p', represents (exec o s) xs' /\ xs' !! p' = Some (n, w).
Proof.
  intros Hr Hp Hadm Hun.
  destruct o as [v|v| | |m v|m v|m]; simpl in *.
  - destruct (append_represents s xs v Hr) as (_ & _ & Hr').
    eexists _, p. split; [exact Hr'|].
    rewrite lookup_app_l; [done|]. by eapply lookup_lt_Some.
  - destruct (appendleft_represents s xs v Hr) as (_ & _ & Hr').
    eexists _, (S p). split; [exact Hr'|]. done.
  - destruct xs as [|[t w'] ys _] using rev_ind; [done|].
    rewrite (represents_tail_snoc s ys t w' Hr) in Hun.
    destruct (pop_represents s ys t w' Hr) as (s' & -> & Hr').
    exists ys, p. split; [done|].
    destruct (decide (p < length ys)%nat) as [Hlt|Hge].
    + by rewrite lookup_app_l in Hp.
    + rewrite lookup_app_r in Hp by lia.
      destruct (p - length ys)%nat; simpl in Hp; [|done]. congruence.
  - destruct xs as [|[t w'] ys]; [done|].
    rewrite (represents_head_cons s ys t w' Hr) in Hun.
    destruct (popleft_represents s ys t w' Hr) as (s' & -> & Hr').
    destruct p as [|p']; simpl in Hp; [congruence|]. by exists ys, p'.
  - apply (represents_belongs s xs m Hr) in Hadm as (q & wm & Hq).
    pose proof (lookup_lt_Some _ _ _ Hq) as Hlt.
    destruct (insert_after_represents s xs q m wm v Hr Hq) as (s' & -> & Hr').
    eexists _, (if decide (p < S q)%nat then p else S p).
    split; [exact Hr'|]. rewrite lookup_splice by lia.
    repeat case_decide; try lia; [done|]. simpl. by rewrite Nat.sub_0_r.
  - apply (represents_belongs s xs m Hr) in Hadm as (q & wm & Hq).
    pose proof (lookup_lt_Some _ _ _ Hq) as Hlt.
    destruct (insert_before_represents s xs q m wm v Hr Hq) as (s' & -> & Hr').
    eexists _, (if decide (p < q)%nat then p else S p).
    split; [exact Hr'|]. rewrite lookup_splice by lia.
    repeat case_decide; try lia; [done|]. simpl. by rewrite Nat.sub_0_r.
  - apply (represents_belongs s xs m Hr) in Hadm as (q & wm & Hq).
    destruct (remove_node_represents s xs q m wm Hr Hq) as (s' & -> & Hr').
    assert (p <> q) by (intros ->; congruence).
    eexists _, (if decide (p < q)%nat then p else (p - 1)%nat).
    split; [exact Hr'|]. case_decide.
    + by rewrite list_lookup_delete_lt.
    + rewrite list_lookup_delete_ge by lia.
      by replace (S (p - 1)) with p by lia.
Qed.

Lemma drain_popleft_represents xs : forall s,
  represents s xs ->
  exists s', drain popleft (length xs) s = (xs.*2, s') /\ represents s' [].
Proof.
  induction xs as [|[n w] ys IH]; intros s Hr; simpl.
  - by exists s.
  - destruct (popleft_represents s ys n w Hr) as (s1 & -> & Hr1).
    destruct (IH s1 Hr1) as (s' & -> & Hr'). by exists s'.
Qed.

Lemma drain_pop_represents xs : forall s,
  represents s xs ->
  exists s', drain pop (length xs) s = (reverse xs.*2, s') /\ represents s' [].
Proof.
  induction xs as [|[n w] ys IH] using rev_ind; intros s Hr; simpl.
  - by exists s.
  - rewrite length_app, Nat.add_1_r. simpl.
    destruct (pop_represents s ys n w Hr) as (s1 & -> & Hr1).
    destruct (IH s1 Hr1) as (s' & -> & Hr').
    exists s'. split; [|done].
    by rewrite fmap_app, reverse_app.
Qed.

End Stability.

(** X7: [clear], in whatever state the list and its nodes are, leaves a
    list of length 0 whose two traversals yield nothing and to which no
    node belongs; the nodes themselves are not touched; and every
    sequence of operations after it, each insertion and removal on a node
    of the list, keeps the structural invariants. *)
Theorem X7_clear_resets {T : Type} (s : state T) :
  len (clear s) = 0 /\
  heap (clear s) = heap s /\
  (forall fuel, iter fuel (clear s) = Some [] /\
                reversed fuel (clear s) = Some []) /\
  (forall n, belongs n (clear s) = false) /\
  (forall ops, admissible_run ops (clear s) = true ->
     structural_invariants (run ops (clear s))).
Proof.
  split; [done|]. split; [done|]. split; [|split].
  - intros fuel. unfold iter, reversed. simpl. by rewrite !traverse_None.
  - intros n. unfold belongs, nodes, walk_next. simpl.
    by rewrite traverse_None.
  - intros ops Hadm.
    destruct (run_well_formed ops (clear s)) as [xs Hr]; [|done|].
    + exists []. apply init_represents.
    + by apply (represents_invariants _ xs).
Qed.

Lemma X7_clear_resets_witness :
  let ops := [Append 7; AppendLeft 6; Pop] in
  admissible_run ops (clear three_elements) = true /\
  structural_invariants (run ops (clear three_elements)).
Proof.
  split; [vm_compute; reflexivity|].
  apply (X7_clear_resets three_elements). vm_compute; reflexivity.
Defined.

(** X8: [remove_node] does not check that its node is still in the list.
    Called a second time on a node of a well-formed list, it returns
    normally and leaves the head and the tail absent and the size two
    below the first: both traversals then yield nothing, whatever nodes
    remained, and unless the list had exactly two nodes the structural
    invariants no longer hold. *)
Theorem X8_remove_node_twice {T : Type} (s : state T) (n : loc) :
  well_formed s -> belongs n s = true ->
  exists s1 s2,
    remove_node n s = (Ok tt, s1) /\
    remove_node n s1 = (Ok tt, s2) /\
    _head (lst s2) = None /\ _tail (lst s2) = None /\
    len s2 = len s - 2 /\
    (forall fuel, iter fuel s2 = Some [] /\ reversed fuel s2 = Some []) /\
    (len s <> 2 -> ~ structural_invariants s2).
Proof.
  intros [xs Hr] Hb.
  apply (represents_belongs s xs n Hr) in Hb as (p & w & Hp).
  destruct (remove_node_represents s xs p n w Hr Hp) as (s1 & Hrm & Hr1).
  destruct (remove_node_detaches s n w) as (s1' & Hrm' & Hdet).
  { by rewrite (represents_node _ _ _ _ _ Hr Hp). }
  rewrite Hrm in Hrm'. simplify_eq.
  assert (Hlen : len s1' = len s - 1).
  { rewrite (represents_len _ _ Hr1), (represents_len _ _ Hr),
      (length_delete_Some _ _ _ Hp). lia. }
  exists s1'. unfold remove_node at 2. rewrite Hdet. simpl.
  eexists. split; [done|]. split; [reflexivity|]. simpl.
  split; [done|]. split; [done|].
  split; [unfold len in *; simpl; lia|]. split.
  - intros fuel. unfold iter, reversed. simpl. by rewrite !traverse_None.
  - intros Hne [Hz _]. unfold len in *. simpl in Hz.
    pose proof (proj2 Hz eq_refl). lia.
Qed.

Lemma X8_remove_node_twice_witness :
  exists s1 s2,
    remove_node 2%positive three_elements = (Ok tt, s1) /\
    remove_node 2%positive s1 = (Ok tt, s2) /\
    len s2 = 1 /\ iter 3 s2 = Some [] /\ ~ structural_invariants s2.
Proof.
  destruct (X8_remove_node_twice three_elements 2%positive)
    as (s1 & s2 & H1 & H2 & _ & _ & H3 & H4 & H5).
  - apply run_well_formed; [|vm_compute; reflexivity].
    exists []. apply init_represents.
  - vm_compute; reflexivity.
  - exists s1, s2. split; [exact H1|]. split; [exact H2|].
    split; [exact H3|]. split; [exact (proj1 (H4 3%nat))|].
    apply H5. discriminate.
Defined.

(** X9: node handles stay good.  On a well-formed list, an operation that
    does not unlink the node [n] (it is not the argument of
    [remove_node], not the tail at a [pop], not the head at a [popleft])
    leaves [n] in the list with the value it had. *)
Theorem X9_handles_survive {T : Type} (o : op T) (s : state T) (n : loc) :
  well_formed s -> belongs n s = true ->
  admissible o s = true -> unlinks o s <> Some n ->
  belongs n (exec o s) = true /\
  value <$> heap (exec o s) !! n = value <$> heap s !! n.
Proof.
  intros [xs Hr] Hb Hadm Hun.
  apply (represents_belongs s xs n Hr) in Hb as (p & w & Hp).
  destruct (exec_keeps_node o s xs p n w Hr Hp Hadm Hun)
    as (xs' & p' & Hr' & Hp').
  split.
  - apply (represents_belongs _ xs' n Hr'). eauto.
  - by rewrite (represents_node _ _ _ _ _ Hr' Hp'),
      (represents_node _ _ _ _ _ Hr Hp).
Qed.

Lemma X9_handles_survive_witness :
  belongs 2%positive (exec (RemoveNode 1%positive) three_elements) = true /\
  value <$> heap (exec (RemoveNode 1%positive) three_elements) !! 2%positive
    = Some 2.
Proof.
  destruct (X9_handles_survive (RemoveNode 1%positive) three_elements
              2%positive) as [H1 H2].
  - apply run_well_formed; [|vm_compute; reflexivity].
    exists []. apply init_represents.
  - vm_compute; reflexivity.
  - vm_compute; reflexivity.
  - discriminate.
  - split; [exact H1|].
    etrans; [exact H2|vm_compute; reflexivity].
Defined.

(** X10: a well-formed list is a double-ended queue.  Calling [popleft]
    as many times as the list is long returns its values in the order of
    the forward traversal; calling [pop] that many times returns them in
    the reverse order; either way the list ends empty and well formed, and
    one more call raises [IndexError]. *)
Theorem X10_drain_order {T : Type} (s : state T) (vs : list T) :
  well_formed s -> contents s = Some vs ->
  (exists s', drain popleft (length vs) s = (vs, s') /\
     well_formed s' /\ len s' = 0 /\
     (popleft s').1 = Raise (IndexError "popleft from empty list")) /\
  (exists s', drain pop (length vs) s = (reverse vs, s') /\
     well_formed s' /\ len s' = 0 /\
     (pop s').1 = Raise (IndexError "pop from empty list")).
Proof.
  intros [xs Hr] Hc. rewrite (represents_contents _ _ Hr) in Hc.
  simplify_eq. rewrite length_fmap. split.
  - destruct (drain_popleft_represents xs s Hr) as (s' & Hd & Hr').
    exists s'. split; [done|]. split; [by exists []|].
    split; [by rewrite (represents_len _ _ Hr')|].
    by rewrite (popleft_empty s' Hr').
  - destruct (drain_pop_represents xs s Hr) as (s' & Hd & Hr').
    exists s'. split; [done|]. split; [by exists []|].
    split; [by rewrite (represents_len _ _ Hr')|].
    by rewrite (pop_empty s' Hr').
Qed.

Lemma X10_drain_order_witness :
  (drain popleft 3 three_elements).1 = [1; 2; 3] /\
  (drain pop 3 three_elements).1 = [3; 2; 1].
Proof.
  destruct (X10_drain_order three_elements [1; 2; 3])
    as [(s1 & H1 & _) (s2 & H2 & _)].
  - apply run_well_formed; [|vm_compute; reflexivity].
    exists []. apply init_represents.
  - vm_compute; reflexivity.
  - split.
    + change 3%nat with (length [1; 2; 3]). by rewrite H1.
    + change 3%nat with (length [1; 2; 3]). by rewrite H2.
Defined.

End DLLExtra.

(** ** Proofs about base/pattern.py *)
Module PatternProofs.
Import Pattern.

Section Proofs.
Context {Config Attrs : Type}.
Implicit Types (w : world Config Attrs) (c cls : pyclass Config Attrs).
Implicit Types (nm : pyname) (kwargs : Config).

Lemma implements_on_pivot_false c :
  implements_on_pivot c = false -> exists m ms, abstractmethods c = m :: ms.
Proof.
  unfold implements_on_pivot. intros H%bool_decide_eq_false.
  destruct (abstractmethods c) as [|m ms]; [|by eauto].
  exfalso. apply H. apply not_elem_of_nil.
Qed.

Lemma instantiate_abstract c kwargs :
  implements_on_pivot c = false ->
  exists msg, instantiate c kwargs = Raise (TypeError msg).
Proof.
  intros (m & ms & Hm)%implements_on_pivot_false.
  unfold instantiate. rewrite Hm. eauto.
Qed.

Lemma declare_valid_name c s w :
  name c = NameStr s -> s <> EmptyString -> declare c w = register c w.
Proof.
  intros Hn Hs. unfold declare, init_subclass. rewrite Hn.
  by rewrite decide_False.
Qed.

(** A call that raises leaves every object as it was. *)
Lemma declare_raise_unchanged c w e :
  (declare c w).1 = Raise e -> (declare c w).2 = w.
Proof.
  unfold declare, init_subclass, register.
  destruct (name c) as [|s|z]; try done.
  destruct (decide (s = EmptyString)); try done.
  by destruct (_register w !! NameStr s).
Qed.

Lemma create_raise_unchanged nm kwargs w e :
  (create nm kwargs w).1 = Raise e -> (create nm kwargs w).2 = w.
Proof.
  unfold create.
  destruct (_instances w !! nm); [done|].
  destruct (_register w !! nm) as [c|]; [|done].
  by destruct (instantiate c kwargs).
Qed.

Lemma create_cached nm kwargs w l :
  _instances w !! nm = Some l -> create nm kwargs w = (Ok l, w).
Proof. intros H. unfold create. by rewrite H. Qed.

Lemma create_new nm kwargs w c obj :
  _instances w !! nm = None -> _register w !! nm = Some c ->
  instantiate c kwargs = Ok obj ->
  create nm kwargs w =
    (Ok (fresh (dom (objects w))),
     mkWorld (_register w) (<[nm := fresh (dom (objects w))]> (_instances w))
             (<[fresh (dom (objects w)) := obj]> (objects w))
             (caller_dicts w)).
Proof. intros Hi Hr Ho. unfold create. by rewrite Hi, Hr, Ho. Qed.

Lemma fresh_object w : objects w !! fresh (dom (objects w)) = None.
Proof. apply not_elem_of_dom, is_fresh. Qed.

(** Instances, once cached, and objects, once made, stay. *)
Lemma declare_instances c w : _instances (declare c w).2 = _instances w.
Proof.
  unfold declare, init_subclass, register.
  destruct (name c) as [|s|z]; try done.
  destruct (decide (s = EmptyString)); try done.
  by destruct (_register w !! NameStr s).
Qed.

Lemma declare_objects c w : objects (declare c w).2 = objects w.
Proof.
  unfold declare, init_subclass, register.
  destruct (name c) as [|s|z]; try done.
  destruct (decide (s = EmptyString)); try done.
  by destruct (_register w !! NameStr s).
Qed.

Lemma create_keeps_instance nm' kwargs w nm l :
  _instances w !! nm = Some l ->
  _instances (create nm' kwargs w).2 !! nm = Some l.
Proof.
  intros H. unfold create.
  destruct (_instances w !! nm') as [l'|] eqn:E; [done|].
  destruct (_register w !! nm') as [c|]; [|done].
  destruct (instantiate c kwargs); [|done]. simpl.
  rewrite lookup_insert_ne; [done|]. intros ->. congruence.
Qed.

Lemma create_keeps_object nm' kwargs w l obj :
  objects w !! l = Some obj ->
  objects (create nm' kwargs w).2 !! l = Some obj.
Proof.
  intros H. unfold create.
  destruct (_instances w !! nm') as [l'|]; [done|].
  destruct (_register w !! nm') as [c|]; [|done].
  destruct (instantiate c kwargs); [|done]. simpl.
  rewrite lookup_insert_ne; [done|]. intros <-.
  by rewrite fresh_object in H.
Qed.

Lemma run_keeps cs w nm l obj :
  _instances w !! nm = Some l -> objects w !! l = Some obj ->
  _instances (run cs w) !! nm = Some l /\ objects (run cs w) !! l = Some obj.
Proof.
  revert w. induction cs as [|[cls|nm' kwargs|nm'|] cs IH]; intros w Hi Ho;
    simpl; [done|..]; apply IH; try done.
  - by rewrite declare_instances.
  - by rewrite declare_objects.
  - by apply create_keeps_instance.
  - by apply create_keeps_object.
Qed.

(** The invariant of the data model is kept by every call. *)
Lemma declare_inv c w : registry_inv w -> registry_inv (declare c w).2.
Proof.
  intros Hinv k Hk. rewrite declare_instances in Hk. apply Hinv in Hk.
  unfold declare, init_subclass, register.
  destruct (name c) as [|s|z]; try done.
  destruct (decide (s = EmptyString)); try done.
  destruct (_register w !! NameStr s) eqn:E; [done|]. simpl.
  rewrite lookup_insert. by case_decide.
Qed.

Lemma create_inv nm kwargs w :
  registry_inv w -> registry_inv (create nm kwargs w).2.
Proof.
  intros Hinv. unfold create.
  destruct (_instances w !! nm) as [l'|]; [done|].
  destruct (_register w !! nm) as [c|] eqn:E; [|done].
  destruct (instantiate c kwargs); [|done].
  intros k. simpl. rewrite lookup_insert. case_decide.
  - subst k. by rewrite E.
  - apply Hinv.
Qed.

Lemma run_inv cs w : registry_inv w -> registry_inv (run cs w).
Proof.
  revert w. induction cs as [|[cls|nm kwargs|nm|] cs IH]; intros w Hinv;
    simpl; [done|..]; apply IH; try done.
  - by apply declare_inv.
  - by apply create_inv.
Qed.

Lemma empty_world_inv : registry_inv (empty_world (Config:=Config) (Attrs:=Attrs)).
Proof. intros k [l Hl]. simpl in Hl. by rewrite lookup_empty in Hl. Qed.

End Proofs.
(** *** The claims on the registry *)

(** C2, as the code has it: a variant with a valid name that is not yet
    registered and has no instance cached, and with no implementation of
    [on_pivot], is declared without error and registered under its name;
    the failure comes when [create] instantiates it, with the [TypeError]
    of [ABC] (the spec's [AbstractContractViolation]), and leaves the
    registry as it was, with no instance for the name. *)
Theorem C2_abstract_variant_fails_at_create {Config Attrs : Type}
    (w : world Config Attrs) (c : pyclass Config Attrs) (s : string)
    (kwargs : Config) :
  name c = NameStr s -> s <> EmptyString ->
  implements_on_pivot c = false ->
  _register w !! NameStr s = None ->
  _instances w !! NameStr s = None ->
  exists w1,
    declare c w = (Ok tt, w1) /\
    _register w1 !! NameStr s = Some c /\
    exists e, AbstractContractViolation e /\
      create (NameStr s) kwargs w1 = (Raise e, w1) /\
      _instances w1 !! NameStr s = None.
Proof.
  intros Hn Hs Habs Hreg Hinst.
  rewrite (declare_valid_name c s w Hn Hs).
  unfold register. rewrite Hn, Hreg.
  eexists. split; [reflexivity|]. simpl.
  split; [by rewrite lookup_insert_eq|].
  destruct (instantiate_abstract c kwargs Habs) as [msg Hmsg].
  exists (TypeError msg). split; [by exists msg|].
  unfold create. simpl. rewrite Hinst, lookup_insert_eq, Hmsg. done.
Qed.

Lemma C2_abstract_variant_fails_at_create_witness :
  exists w1,
    declare Bare empty_world = (Ok tt, w1) /\
    _register w1 !! NameStr "bare" = Some Bare /\
    exists e, AbstractContractViolation e /\
      create (NameStr "bare") 5 w1 = (Raise e, w1) /\
      _instances w1 !! NameStr "bare" = None.
Proof.
  apply (C2_abstract_variant_fails_at_create empty_world Bare "bare" 5);
    [reflexivity | discriminate | reflexivity | reflexivity | reflexivity].
Defined.

(** C2 as stated fails: declaring [Bare], which has a valid name and no
    [on_pivot], on the empty registry returns normally, and its name is
    then a key of [_register]. *)
Lemma C2_counterexample :
  name Bare = NameStr "bare" /\
  implements_on_pivot Bare = false /\
  (declare Bare empty_world).1 = Ok tt /\
  _register (declare Bare empty_world).2 !! NameStr "bare" = Some Bare.
Proof. vm_compute. done. Qed.

(** C3, as the code has it: [all()] changes nothing and returns the dict
    bound to [_register] itself, so a later [all()] gives the same object;
    an entry set or deleted through the returned mapping is set or deleted
    in [_register].  A copy of the returned mapping is a separate object:
    changing it leaves [_register] as it was. *)
Theorem C3_all_returns_the_register_itself {Config Attrs : Type}
    (w : world Config Attrs) :
  deref w (all w) = Some (_register w) /\
  (forall k c, _register (dict_setitem (all w) k c w) = <[k := c]> (_register w)) /\
  (forall k c, all (dict_setitem (all w) k c w) = all w) /\
  (forall s c c', name c' = NameStr s -> s <> EmptyString ->
     (declare c' (dict_setitem (all w) (NameStr s) c w)).1
       = Raise (ValueError (msg_duplicate (cls_name c') (cls_name c)))) /\
  (forall k, is_Some (_register w !! k) ->
     (dict_delitem (all w) k w).1 = Ok tt /\
     _register (dict_delitem (all w) k w).2 = delete k (_register w)) /\
  (exists r' w', dict_copy (all w) w = Some (r', w') /\
     deref w' r' = Some (_register w) /\
     _register w' = _register w /\
     (forall k c, _register (dict_setitem r' k c w') = _register w) /\
     (forall k, _register (dict_delitem r' k w').2 = _register w)).
Proof.
  split; [done|]. split; [done|]. split; [done|]. split; [|split].
  - intros s c c' Hn Hs. rewrite (declare_valid_name c' s _ Hn Hs).
    unfold register. simpl. by rewrite Hn, lookup_insert_eq.
  - intros k [c Hc]. unfold dict_delitem. simpl. by rewrite Hc.
  - unfold dict_copy. simpl. eexists _, _. split; [reflexivity|]. simpl.
    split; [by rewrite lookup_insert_eq|]. split; [done|]. split; [done|].
    intros k. unfold dict_delitem. simpl. rewrite lookup_insert_eq.
    by destruct (_register w !! k).
Qed.

Lemma C3_all_returns_the_register_itself_witness :
  let w := (declare Foo empty_world).2 in
  is_Some (_register w !! NameStr "foo") /\
  _register (dict_delitem (all w) (NameStr "foo") w).2
    = delete (NameStr "foo") (_register w).
Proof.
  split; [by eexists|].
  apply (C3_all_returns_the_register_itself (declare Foo empty_world).2).
  by eexists.
Defined.

(** C3 as stated fails: on the empty registry, setting the key ["foo"] in
    the mapping that [all()] returned puts it in [_register]; a later
    [all()] shows it, and a later declaration of a variant of that name is
    refused as a duplicate. *)
Lemma C3_counterexample :
  let w0 : world Z Z := empty_world in
  let w1 := dict_setitem (all w0) (NameStr "foo") Foo w0 in
  _register w0 !! NameStr "foo" = None /\
  _register w1 !! NameStr "foo" = Some Foo /\
  deref w1 (all w1) ≫= (.!! NameStr "foo") = Some Foo /\
  (declare Foo2 w0).1 = Ok tt /\
  (declare Foo2 w1).1 = Raise (ValueError (msg_duplicate "Foo2" "Foo")).
Proof. vm_compute. done. Qed.

(** C4: a declaration whose [name] is [None] (missing), the empty string
    or not a string raises the [ValueError] the spec calls
    [InvalidPatternName]; one whose valid name is already a key of
    [_register] raises the [ValueError] the spec calls [DuplicatePattern];
    and every declaration that raises leaves all the state as it was, so
    [_register], and what [all()] gives, has exactly the entries it had. *)
Theorem C4_failed_declaration_leaves_registry {Config Attrs : Type}
    (w : world Config Attrs) (c : pyclass Config Attrs) :
  (name c = NameNone \/ name c = NameStr EmptyString \/
   (exists z, name c = NameOther z) ->
   exists e, InvalidPatternName e /\ declare c w = (Raise e, w)) /\
  (forall s existing,
     name c = NameStr s -> s <> EmptyString ->
     _register w !! NameStr s = Some existing ->
     DuplicatePattern (ValueError (msg_duplicate (cls_name c) (cls_name existing))) /\
     declare c w =
       (Raise (ValueError (msg_duplicate (cls_name c) (cls_name existing))), w)) /\
  (forall e, (declare c w).1 = Raise e ->
     (declare c w).2 = w /\
     deref (declare c w).2 (all (declare c w).2) = Some (_register w)).
Proof.
  split; [|split].
  - unfold declare, init_subclass. intros [Hn|[Hn|[z Hn]]]; rewrite Hn.
    + eexists. split; [|reflexivity]. exists (cls_name c). by left.
    + rewrite decide_True by done.
      eexists. split; [|reflexivity]. exists (cls_name c). by right.
    + eexists. split; [|reflexivity]. exists (cls_name c). by right.
  - intros s existing Hn Hs Hreg. split; [by eexists _, _|].
    rewrite (declare_valid_name c s w Hn Hs).
    unfold register. by rewrite Hn, Hreg.
  - intros e He. rewrite (declare_raise_unchanged c w e He). done.
Qed.

Lemma C4_failed_declaration_leaves_registry_witness :
  let w := (declare Foo empty_world).2 in
  _register w !! NameStr "foo" = Some Foo /\
  declare Foo2 w = (Raise (ValueError (msg_duplicate "Foo2" "Foo")), w) /\
  (exists e, InvalidPatternName e /\
     declare (mkClass "Anon" NameNone [] (fun k : Z => Ok k)) w = (Raise e, w)).
Proof.
  destruct (C4_failed_declaration_leaves_registry
              (declare Foo empty_world).2 Foo2) as (_ & Hdup & _).
  destruct (C4_failed_declaration_leaves_registry (declare Foo empty_world).2
              (mkClass "Anon" NameNone [] (fun k : Z => Ok k)))
    as (Hinv & _ & _).
  split; [reflexivity|]. split.
  - apply (Hdup "foo" Foo); [reflexivity | discriminate | reflexivity].
  - apply Hinv. left. reflexivity.
Defined.

(** C5: when a name is registered and has no instance yet, [create] with
    a configuration on which the constructor returns builds the instance
    from [_register[name]] and that configuration, stores it as a new
    object and caches it; after any further calls of the registry, every
    [create] of that name returns the same object, still as it was built,
    whatever configuration is passed, and changes nothing. *)
Theorem C5_create_caches_first_instance {Config Attrs : Type}
    (w : world Config Attrs) (nm : pyname) (c : pyclass Config Attrs)
    (kwargs : Config) (obj : instance Config Attrs) :
  _register w !! nm = Some c ->
  _instances w !! nm = None ->
  instantiate c kwargs = Ok obj ->
  exists l w1,
    create nm kwargs w = (Ok l, w1) /\
    objects w !! l = None /\
    objects w1 !! l = Some obj /\
    inst_class obj = c /\ Ok (attrs obj) = init c kwargs /\
    _instances w1 !! nm = Some l /\
    forall (cs : list (call Config Attrs)) (kwargs' : Config),
      let w2 := run cs w1 in
      create nm kwargs' w2 = (Ok l, w2) /\
      get_instance nm w2 = Ok l /\
      objects w2 !! l = Some obj.
Proof.
  intros Hreg Hinst Hobj.
  rewrite (create_new nm kwargs w c obj Hinst Hreg Hobj).
  eexists _, _. split; [reflexivity|]. simpl.
  split; [apply fresh_object|].
  split; [by rewrite lookup_insert_eq|].
  split; [|split; [|split; [by rewrite lookup_insert_eq|]]].
  - unfold instantiate in Hobj. destruct (abstractmethods c); [|done].
    destruct (init c kwargs); by simplify_eq.
  - unfold instantiate in Hobj. destruct (abstractmethods c); [|done].
    destruct (init c kwargs); by simplify_eq.
  - intros cs kwargs'.
    destruct (run_keeps cs
      (mkWorld (_register w) (<[nm := fresh (dom (objects w))]> (_instances w))
               (<[fresh (dom (objects w)) := obj]> (objects w)) (caller_dicts w))
      nm (fresh (dom (objects w))) obj) as [Hi Ho];
      [by simpl; rewrite lookup_insert_eq ..|].
    split; [by apply create_cached|]. split; [|done].
    unfold get_instance. by rewrite Hi.
Qed.

Lemma C5_create_caches_first_instance_witness :
  let w := (declare Foo empty_world).2 in
  exists l w1,
    create (NameStr "foo") 1 w = (Ok l, w1) /\
    create (NameStr "foo") 2 w1 = (Ok l, w1) /\
    attrs <$> objects w1 !! l = Some 1.
Proof.
  destruct (C5_create_caches_first_instance (declare Foo empty_world).2
              (NameStr "foo") Foo 1 (mkInstance Foo 1)
              eq_refl eq_refl eq_refl)
    as (l & w1 & H1 & _ & H2 & _ & _ & _ & H3).
  exists l, w1. split; [exact H1|]. split.
  - exact (proj1 (H3 [] 2)).
  - by rewrite H2.
Defined.

(** C9, as the code has it: [create] looks in [_instances] before
    [_register].  It raises [KeyError] (the spec's [NotFound]) and changes
    nothing whenever the name has no instance and is not a key of
    [_register]; a name that has an instance gets that instance back,
    whether or not it is a key of [_register].  Where every key of
    [_instances] is a key of [_register], as after any calls of the
    registry from the start, [create] of a name that is not a key of
    [_register] therefore raises.  [get_instance] of a name with no
    instance raises [KeyError].  A call that raises returns no instance. *)
Theorem C9_not_found_unless_cached {Config Attrs : Type}
    (nm : pyname) (kwargs : Config) :
  NotFound (KeyError nm) /\
  (forall w : world Config Attrs,
     _instances w !! nm = None -> _register w !! nm = None ->
     create nm kwargs w = (Raise (KeyError nm), w)) /\
  (forall (w : world Config Attrs) (l : loc),
     _instances w !! nm = Some l -> create nm kwargs w = (Ok l, w)) /\
  (forall w : world Config Attrs,
     registry_inv w -> _register w !! nm = None ->
     create nm kwargs w = (Raise (KeyError nm), w)) /\
  (forall cs : list (call Config Attrs),
     let w := run cs empty_world in
     _register w !! nm = None ->
     create nm kwargs w = (Raise (KeyError nm), w)) /\
  (forall w : world Config Attrs,
     _instances w !! nm = None -> get_instance nm w = Raise (KeyError nm)).
Proof.
  assert (Hraise : forall w : world Config Attrs,
            _instances w !! nm = None -> _register w !! nm = None ->
            create nm kwargs w = (Raise (KeyError nm), w)).
  { intros w Hi Hreg. unfold create. by rewrite Hi, Hreg. }
  assert (Hinv : forall w : world Config Attrs,
            registry_inv w -> _register w !! nm = None ->
            create nm kwargs w = (Raise (KeyError nm), w)).
  { intros w Hinv Hreg. apply Hraise; [|done].
    destruct (_instances w !! nm) as [l|] eqn:E; [|done].
    destruct (Hinv nm) as [c Hc]; [by rewrite E|]. congruence. }
  split; [by exists nm|]. split; [exact Hraise|]. split; [|split; [|split]].
  - intros w l. apply create_cached.
  - exact Hinv.
  - intros cs w. apply Hinv, run_inv, empty_world_inv.
  - intros w Hi. unfold get_instance. by rewrite Hi.
Qed.

Lemma C9_not_found_unless_cached_witness :
  let w := run [Subclass Foo; Create (NameStr "foo") 1] empty_world in
  create (NameStr "y") 3 w = (Raise (KeyError (NameStr "y")), w) /\
  create (NameStr "foo") 3 w = (Ok 1%positive, w) /\
  get_instance (NameStr "y") w = Raise (KeyError (NameStr "y")).
Proof.
  destruct (C9_not_found_unless_cached (Config:=Z) (Attrs:=Z) (NameStr "y") 3)
    as (_ & H1 & _ & _ & _ & H2).
  destruct (C9_not_found_unless_cached (Config:=Z) (Attrs:=Z) (NameStr "foo") 3)
    as (_ & _ & H3 & _).
  split; [apply H1; reflexivity|].
  split; [apply H3; reflexivity|apply H2; reflexivity].
Defined.

(** C9 as stated fails: after [Foo] is declared and instantiated, the
    caller deletes the key ["foo"] from the dict [all()] returned; the
    name is then not a key of [_register], and [create] on it returns the
    cached instance instead of raising. *)
Lemma C9_counterexample :
  let w := run [Subclass Foo; Create (NameStr "foo") 1] empty_world in
  let w' := (dict_delitem (all w) (NameStr "foo") w).2 in
  (dict_delitem (all w) (NameStr "foo") w).1 = Ok tt /\
  _register w' !! NameStr "foo" = None /\
  create (NameStr "foo") 2 w' = (Ok 1%positive, w').
Proof. vm_compute. done. Qed.

(** C10: a [create] that raises changes nothing: when the name is not a
    key of [_register], or when the constructor of the variant raises,
    [_instances] is as it was, with no entry added for the name; and after
    a [create], returned or raised, every key of [_instances] is a key of
    [_register] if it was so before, as it is after any calls from the
    start. *)
Theorem C10_create_atomic_on_failure {Config Attrs : Type}
    (w : world Config Attrs) (nm : pyname) (kwargs : Config) :
  (forall e, (create nm kwargs w).1 = Raise e -> (create nm kwargs w).2 = w) /\
  (_register w !! nm = None ->
     _instances (create nm kwargs w).2 = _instances w) /\
  (forall c e,
     _register w !! nm = Some c -> _instances w !! nm = None ->
     instantiate c kwargs = Raise e ->
     create nm kwargs w = (Raise e, w)) /\
  (registry_inv w -> registry_inv (create nm kwargs w).2) /\
  (forall cs : list (call Config Attrs),
     registry_inv (create nm kwargs (run cs empty_world)).2).
Proof.
  split; [|split; [|split; [|split]]].
  - intros e. apply create_raise_unchanged.
  - intros Hreg. unfold create.
    destruct (_instances w !! nm); [done|]. by rewrite Hreg.
  - intros c e Hreg Hinst He. unfold create. by rewrite Hinst, Hreg, He.
  - apply create_inv.
  - intros cs. apply create_inv, run_inv, empty_world_inv.
Qed.

Lemma C10_create_atomic_on_failure_witness :
  let w := run [Subclass Foo; Subclass Picky; Subclass Bare] empty_world in
  create (NameStr "picky") 7 w = (Raise (OtherError "bad threshold"), w) /\
  (create (NameStr "nope") 7 w).2 = w /\
  _instances (create (NameStr "bare") 7 w).2 !! NameStr "bare" = None.
Proof.
  set (w := run [Subclass Foo; Subclass Picky; Subclass Bare] empty_world).
  destruct (C10_create_atomic_on_failure w (NameStr "picky") 7)
    as (_ & _ & H1 & _).
  destruct (C10_create_atomic_on_failure w (NameStr "nope") 7)
    as (H2 & _).
  destruct (C10_create_atomic_on_failure w (NameStr "bare") 7)
    as (H3 & _).
  split; [apply (H1 Picky); reflexivity|].
  split; [apply (H2 (KeyError (NameStr "nope"))); reflexivity|].
  rewrite (H3 (TypeError "Can't instantiate abstract class Bare"));
    reflexivity.
Defined.

End PatternProofs.

(** ** Further properties of base/pattern.py *)
Module PatternExtra.
Import Pattern PatternProofs.

Section Calls.
Context {Config Attrs : Type}.
Implicit Types (w : world Config Attrs) (c cls : pyclass Config Attrs).
Implicit Types (nm : pyname) (kwargs : Config).

Lemma declare_cases c w :
  (declare c w = (Ok tt, mkWorld (<[name c := c]> (_register w))
                           (_instances w) (objects w) (caller_dicts w)) /\
   _register w !! name c = None /\
   exists s, name c = NameStr s /\ s <> EmptyString) \/
  (exists e, declare c w = (Raise e, w) /\
     (InvalidPatternName e \/ DuplicatePattern e)).
Proof.
  unfold declare, init_subclass, register.
  destruct (name c) as [|s|z] eqn:Hn.
  - right. eexists. split; [reflexivity|]. left. eexists. by left.
  - destruct (decide (s = EmptyString)) as [->|Hs].
    + right. eexists. split; [reflexivity|]. left. eexists. by right.
    + destruct (_register w !! NameStr s) as [existing|] eqn:E.
      * right. eexists. split; [reflexivity|]. right. by eexists _, _.
      * left. split; [done|]. split; [done|]. eauto.
  - right. eexists. split; [reflexivity|]. left. eexists. by right.
Qed.

Lemma declare_register_mono c w k c0 :
  _register w !! k = Some c0 -> _register (declare c w).2 !! k = Some c0.
Proof.
  intros Hk. destruct (declare_cases c w) as [(-> & Hnone & _)|(e & -> & _)];
    simpl; [|done].
  rewrite lookup_insert_ne; [done|]. intros Heq. congruence.
Qed.

Lemma create_register nm kwargs w :
  _register (create nm kwargs w).2 = _register w.
Proof.
  unfold create. destruct (_instances w !! nm); [done|].
  destruct (_register w !! nm) as [c|]; [|done].
  by destruct (instantiate c kwargs).
Qed.

Lemma run_register_mono (cs : list (call Config Attrs)) : forall w k c0,
  _register w !! k = Some c0 -> _register (run cs w) !! k = Some c0.
Proof.
  induction cs as [|[cls|nm kwargs|nm|] cs IH]; intros w k c0 Hk; simpl;
    [done|..]; apply IH; try done.
  - by apply declare_register_mono.
  - by rewrite create_register.
Qed.

Lemma declare_keys_valid c w : keys_valid w -> keys_valid (declare c w).2.
Proof.
  intros Hv. destruct (declare_cases c w)
    as [(-> & Hnone & s & Hn & Hs)|(e & -> & _)]; simpl; [|done].
  intros k c0. simpl. rewrite lookup_insert. case_decide.
  - intros [= <-]. subst k. split; [done|]. eauto.
  - apply Hv.
Qed.

Lemma run_keys_valid (cs : list (call Config Attrs)) : forall w,
  keys_valid w -> keys_valid (run cs w).
Proof.
  induction cs as [|[cls|nm kwargs|nm|] cs IH]; intros w Hv; simpl;
    [done|..]; apply IH; try done.
  - by apply declare_keys_valid.
  - intros k c0. rewrite create_register. apply Hv.
Qed.

Lemma instantiate_Ok c kwargs obj :
  instantiate c kwargs = Ok obj ->
  inst_class obj = c /\ abstractmethods c = [] /\
  init c kwargs = Ok (attrs obj).
Proof.
  unfold instantiate. destruct (abstractmethods c); [|done].
  destruct (init c kwargs); [|done]. by intros [= <-].
Qed.

Lemma declare_typed c w :
  instances_typed w -> instances_typed (declare c w).2.
Proof.
  intros Hty nm l. rewrite declare_instances, declare_objects. intros Hl.
  destruct (Hty nm l Hl) as (obj & c0 & Ho & Hr & Hrest).
  exists obj, c0. split; [done|]. split; [|done].
  by apply declare_register_mono.
Qed.

Lemma create_typed nm kwargs w :
  instances_typed w -> instances_typed (create nm kwargs w).2.
Proof.
  intros Hty. unfold create.
  destruct (_instances w !! nm) as [l0|] eqn:Hi; [done|].
  destruct (_register w !! nm) as [c|] eqn:Hr; [|done].
  destruct (instantiate c kwargs) as [obj|] eqn:Ho; [|done].
  destruct (instantiate_Ok c kwargs obj Ho) as (Hc & Habs & Hinit).
  intros nm' l. simpl. rewrite lookup_insert. case_decide.
  - intros [= <-]. subst nm'. exists obj, c.
    rewrite lookup_insert_eq. split; [done|]. split; [done|].
    split; [done|]. split; [done|]. eauto.
  - intros Hl. destruct (Hty nm' l Hl) as (obj' & c' & Ho' & Hrest).
    exists obj', c'. split; [|done].
    rewrite lookup_insert_ne; [done|]. intros <-.
    by rewrite fresh_object in Ho'.
Qed.

Lemma create_distinct nm kwargs w :
  instances_typed w -> instances_distinct w ->
  instances_distinct (create nm kwargs w).2.
Proof.
  intros Hty Hd. unfold create.
  destruct (_instances w !! nm) as [l0|] eqn:Hi; [done|].
  destruct (_register w !! nm) as [c|] eqn:Hr; [|done].
  destruct (instantiate c kwargs) as [obj|] eqn:Ho; [|done].
  assert (Hfresh : forall b, _instances w !! b <> Some (fresh (dom (objects w)))).
  { intros b Hb. destruct (Hty b _ Hb) as (obj' & _ & Ho' & _).
    by rewrite fresh_object in Ho'. }
  intros a b l. simpl. rewrite !lookup_insert.
  repeat case_decide; subst; try done.
  - intros [= <-] Hb. by destruct (Hfresh b).
  - intros Ha [= <-]. by destruct (Hfresh a).
  - apply Hd.
Qed.

Lemma run_typed_distinct (cs : list (call Config Attrs)) : forall w,
  instances_typed w -> instances_distinct w ->
  instances_typed (run cs w) /\ instances_distinct (run cs w).
Proof.
  induction cs as [|[cls|nm kwargs|nm|] cs IH]; intros w Hty Hd; simpl;
    [done|..]; apply IH; try done.
  - by apply declare_typed.
  - intros a b l. rewrite declare_instances. apply Hd.
  - by apply create_typed.
  - by apply create_distinct.
Qed.

End Calls.

(** X11: a class statement returns exactly when the [name] of the class is
    a non-empty [str] that is not yet a key of [_register]; it then adds
    that one entry and changes nothing else.  In every other case it
    raises a [ValueError] and changes nothing. *)
Theorem X11_declare_succeeds_iff {Config Attrs : Type}
    (w : world Config Attrs) (c : pyclass Config Attrs) :
  ((declare c w).1 = Ok tt <->
   exists s, name c = NameStr s /\ s <> EmptyString /\
             _register w !! NameStr s = None) /\
  ((declare c w).1 = Ok tt ->
   (declare c w).2 = mkWorld (<[name c := c]> (_register w))
                       (_instances w) (objects w) (caller_dicts w)) /\
  ((declare c w).1 <> Ok tt ->
   exists msg, declare c w = (Raise (ValueError msg), w)).
Proof.
  split; [split|split].
  - destruct (declare_cases c w) as [(-> & Hnone & s & Hn & Hs)|(e & -> & _)];
      [|done]. intros _. exists s. by rewrite <- Hn.
  - intros (s & Hn & Hs & Hnone).
    rewrite (declare_valid_name c s w Hn Hs). unfold register.
    by rewrite Hn, Hnone.
  - destruct (declare_cases c w) as [(-> & _)|(e & -> & _)]; done.
  - destruct (declare_cases c w) as [(-> & _)|(e & -> & He)]; [done|].
    intros _. destruct He as [[cls [-> | ->]]|(cur & ex & ->)]; by eexists.
Qed.

Lemma X11_declare_succeeds_iff_witness :
  (declare Foo empty_world).1 = Ok tt /\
  _register (declare Foo empty_world).2 = <[NameStr "foo" := Foo]> ∅ /\
  (declare Foo2 (declare Foo empty_world).2).1 <> Ok tt.
Proof.
  destruct (X11_declare_succeeds_iff empty_world Foo) as ([_ H1] & H2 & _).
  destruct (X11_declare_succeeds_iff (declare Foo empty_world).2 Foo2)
    as ([H3 _] & _).
  assert (Hok : (declare Foo empty_world).1 = Ok tt).
  { apply H1. exists "foo". split; [reflexivity|]. split; [discriminate|].
    reflexivity. }
  split; [exact Hok|]. split; [by rewrite (H2 Hok)|].
  intros Hbad. destruct (H3 Hbad) as (s & Hn & _ & Hnone).
  injection Hn as <-. rewrite (H2 Hok) in Hnone. simpl in Hnone.
  by rewrite lookup_insert_eq in Hnone.
Defined.

(** X12: after any calls of the registry from the start, every key of
    [_register] is a non-empty [str] and the class stored under it is the
    one whose [name] is that key. *)
Theorem X12_registered_keys_are_names {Config Attrs : Type}
    (cs : list (call Config Attrs)) (k : pyname) (c : pyclass Config Attrs) :
  _register (run cs empty_world) !! k = Some c ->
  name c = k /\ exists s, k = NameStr s /\ s <> EmptyString.
Proof.
  apply (run_keys_valid cs empty_world). intros k' c' Hk'.
  simpl in Hk'. by rewrite lookup_empty in Hk'.
Qed.

Lemma X12_registered_keys_are_names_witness :
  name Foo = NameStr "foo" /\
  exists s, NameStr "foo" = NameStr s /\ s <> EmptyString.
Proof.
  apply (X12_registered_keys_are_names
           [Subclass Foo; Subclass Foo2; Create (NameStr "foo") 1]
           (NameStr "foo") Foo).
  reflexivity.
Defined.

(** X13: a registration is for good and the first one wins: whatever
    calls of the registry follow, a name once registered stays a key of
    [_register] with the same class under it. *)
Theorem X13_registration_is_permanent {Config Attrs : Type}
    (w : world Config Attrs) (cs : list (call Config Attrs)) (k : pyname)
    (c : pyclass Config Attrs) :
  _register w !! k = Some c -> _register (run cs w) !! k = Some c.
Proof. apply run_register_mono. Qed.

Lemma X13_registration_is_permanent_witness :
  _register (run [Subclass Foo2; Create (NameStr "foo") 1; Subclass Bare]
               (declare Foo empty_world).2) !! NameStr "foo" = Some Foo.
Proof.
  apply (X13_registration_is_permanent (declare Foo empty_world).2).
  reflexivity.
Defined.

(** X14: after any calls of the registry from the start, the instance
    cached under a name is a stored object of the class registered under
    that name, built by its constructor on some keyword arguments; that
    class has no abstract method, so no variant without [on_pivot] ever
    has an instance. *)
Theorem X14_instances_are_of_registered_class {Config Attrs : Type}
    (cs : list (call Config Attrs)) (nm : pyname) (l : loc) :
  let w := run cs empty_world in
  get_instance nm w = Ok l ->
  exists obj c,
    objects w !! l = Some obj /\
    _register w !! nm = Some c /\
    inst_class obj = c /\
    implements_on_pivot c = true /\
    exists kwargs, init c kwargs = Ok (attrs obj).
Proof.
  intros w Hg.
  assert (Hl : _instances w !! nm = Some l).
  { unfold get_instance in Hg. destruct (_instances w !! nm); by simplify_eq. }
  destruct (run_typed_distinct cs empty_world) as [Hty _].
  { intros nm' l' H. simpl in H. by rewrite lookup_empty in H. }
  { intros a b l' H. simpl in H. by rewrite lookup_empty in H. }
  destruct (Hty nm l Hl) as (obj & c & Ho & Hr & Hc & Habs & Hinit).
  exists obj, c. split; [done|]. split; [done|]. split; [done|].
  split; [|done]. unfold implements_on_pivot. rewrite Habs.
  apply bool_decide_eq_true. apply not_elem_of_nil.
Qed.

Lemma X14_instances_are_of_registered_class_witness :
  let w := run [Subclass Foo; Subclass Bare; Create (NameStr "bare") 2;
                Create (NameStr "foo") 1] empty_world in
  exists l obj,
    get_instance (NameStr "foo") w = Ok l /\
    objects w !! l = Some obj /\ inst_class obj = Foo.
Proof.
  destruct (X14_instances_are_of_registered_class
              [Subclass Foo; Subclass Bare; Create (NameStr "bare") 2;
               Create (NameStr "foo") 1] (NameStr "foo") 1%positive)
    as (obj & c & H1 & H2 & H3 & _).
  - reflexivity.
  - exists 1%positive, obj. split; [reflexivity|]. split; [exact H1|].
    rewrite H3. injection H2 as <-. reflexivity.
Defined.

(** X15: one instance per name, and one name per instance: after any
    calls of the registry from the start, two different names never give
    the same instance object. *)
Theorem X15_names_do_not_share_instances {Config Attrs : Type}
    (cs : list (call Config Attrs)) (a b : pyname) (la lb : loc) :
  let w := run cs empty_world in
  a <> b -> get_instance a w = Ok la -> get_instance b w = Ok lb ->
  la <> lb.
Proof.
  intros w Hne Ha Hb Heq. subst lb. apply Hne.
  destruct (run_typed_distinct cs empty_world) as [_ Hd].
  { intros nm' l' H. simpl in H. by rewrite lookup_empty in H. }
  { intros a' b' l' H. simpl in H. by rewrite lookup_empty in H. }
  apply (Hd a b la).
  - unfold get_instance in Ha. fold w.
    destruct (_instances w !! a); by simplify_eq.
  - unfold get_instance in Hb. fold w.
    destruct (_instances w !! b); by simplify_eq.
Qed.

Lemma X15_names_do_not_share_instances_witness :
  let cs := [Subclass Foo; Subclass Strict; Create (NameStr "foo") 1;
             Create (NameStr "strict") 5; Create (NameStr "foo") 2] in
  exists la lb,
    get_instance (NameStr "foo") (run cs empty_world) = Ok la /\
    get_instance (NameStr "strict") (run cs empty_world) = Ok lb /\
    la <> lb.
Proof.
  exists 1%positive, 2%positive.
  split; [reflexivity|]. split; [reflexivity|].
  apply (X15_names_do_not_share_instances
           [Subclass Foo; Subclass Strict; Create (NameStr "foo") 1;
            Create (NameStr "strict") 5; Create (NameStr "foo") 2]
           (NameStr "foo") (NameStr "strict") 1%positive 2%positive);
    [discriminate | reflexivity | reflexivity].
Defined.

(** X16: [get_instance] returns an instance for a name exactly when
    [create] on that name, whatever the keyword arguments, returns that
    same instance and leaves the whole state as it was: [create] reads
    only, and ignores its keyword arguments, exactly for the names that
    have an instance. *)
Theorem X16_create_reads_only_iff_cached {Config Attrs : Type}
    (w : world Config Attrs) (nm : pyname) (kwargs : Config) (l : loc) :
  get_instance nm w = Ok l <-> create nm kwargs w = (Ok l, w).
Proof.
  unfold get_instance, create. split.
  - destruct (_instances w !! nm) as [l0|]; [|done]. by intros [= ->].
  - destruct (_instances w !! nm) as [l0|] eqn:Hi; [by intros [= ->]|].
    destruct (_register w !! nm) as [c|]; [|done].
    destruct (instantiate c kwargs) as [obj|]; [|done].
    intros [= Hl Hw]. exfalso.
    assert (Hi' : _instances w !! nm = Some (fresh (dom (objects w)))).
    { rewrite <- Hw at 1. simpl. by rewrite lookup_insert_eq. }
    congruence.
Qed.

(** X17: [create] never touches [_register] or a dict a caller holds,
    never changes or drops the instance cached under another name, and
    never changes or drops a stored object; when it returns, the instance
    it returns is the one [get_instance] gives for the name from then
    on. *)
Theorem X17_create_frame {Config Attrs : Type}
    (w : world Config Attrs) (nm : pyname) (kwargs : Config) :
  let w' := (create nm kwargs w).2 in
  _register w' = _register w /\
  caller_dicts w' = caller_dicts w /\
  (forall nm', nm' <> nm -> _instances w' !! nm' = _instances w !! nm') /\
  (forall l obj, objects w !! l = Some obj -> objects w' !! l = Some obj) /\
  (forall l, (create nm kwargs w).1 = Ok l -> get_instance nm w' = Ok l).
Proof.
  intros w'. split; [apply create_register|]. split; [|split; [|split]].
  - unfold w', create. destruct (_instances w !! nm); [done|].
    destruct (_register w !! nm) as [c|]; [|done].
    by destruct (instantiate c kwargs).
  - intros nm' Hne. unfold w', create.
    destruct (_instances w !! nm); [done|].
    destruct (_register w !! nm) as [c|]; [|done].
    destruct (instantiate c kwargs); [|done]. simpl.
    by rewrite lookup_insert_ne.
  - intros l obj. apply create_keeps_object.
  - intros l. unfold w', create, get_instance.
    destruct (_instances w !! nm) as [l0|] eqn:Hi.
    + simpl. intros [= ->]. by rewrite Hi.
    + destruct (_register w !! nm) as [c|]; [|done].
      destruct (instantiate c kwargs); [|done]. simpl. intros [= <-].
      by rewrite lookup_insert_eq.
Qed.

Lemma X17_create_frame_witness :
  let w := run [Subclass Foo; Subclass Picky] empty_world in
  (create (NameStr "foo") 1 w).1 = Ok 1%positive /\
  get_instance (NameStr "foo") (create (NameStr "foo") 1 w).2 = Ok 1%positive.
Proof.
  split; [reflexivity|].
  apply (X17_create_frame (run [Subclass Foo; Subclass Picky] empty_world)
           (NameStr "foo") 1).
  reflexivity.
Defined.

Lemma X16_create_reads_only_iff_cached_witness :
  let w := run [Subclass Foo; Create (NameStr "foo") 1] empty_world in
  get_instance (NameStr "foo") w = Ok 1%positive /\
  create (NameStr "foo") 2 w = (Ok 1%positive, w).
Proof.
  split; [reflexivity|].
  apply (X16_create_reads_only_iff_cached
           (run [Subclass Foo; Create (NameStr "foo") 1] empty_world)).
  reflexivity.
Defined.

(** X18: a [create] that failed is not remembered.  When the constructor
    raised on the first keyword arguments, a later [create] of the same
    name on keyword arguments the constructor accepts builds the instance
    from those, stores it as a new object and caches it. *)
Theorem X18_create_retry_after_failure {Config Attrs : Type}
    (w : world Config Attrs) (nm : pyname) (c : pyclass Config Attrs)
    (k1 k2 : Config) (e : exn) (obj : instance Config Attrs) :
  _register w !! nm = Some c -> _instances w !! nm = None ->
  instantiate c k1 = Raise e -> instantiate c k2 = Ok obj ->
  exists l w2,
    (create nm k1 w).1 = Raise e /\
    create nm k2 (create nm k1 w).2 = (Ok l, w2) /\
    objects w !! l = None /\
    objects w2 !! l = Some obj /\
    get_instance nm w2 = Ok l.
Proof.
  intros Hreg Hinst H1 H2.
  assert (Hfail : create nm k1 w = (Raise e, w)).
  { unfold create. by rewrite Hinst, Hreg, H1. }
  rewrite Hfail. simpl.
  rewrite (create_new nm k2 w c obj Hinst Hreg H2).
  eexists _, _. split; [done|]. split; [reflexivity|].
  split; [apply fresh_object|]. unfold get_instance. simpl.
  by rewrite !lookup_insert_eq.
Qed.

Lemma X18_create_retry_after_failure_witness :
  let w := (declare Strict empty_world).2 in
  exists l w2,
    (create (NameStr "strict") 0 w).1
      = Raise (ValueError "threshold must be positive") /\
    create (NameStr "strict") 5 (create (NameStr "strict") 0 w).2 = (Ok l, w2) /\
    attrs <$> objects w2 !! l = Some 5.
Proof.
  destruct (X18_create_retry_after_failure (declare Strict empty_world).2
              (NameStr "strict") Strict 0 5
              (ValueError "threshold must be positive") (mkInstance Strict 5)
              eq_refl eq_refl eq_refl eq_refl)
    as (l & w2 & H1 & H2 & _ & H3 & _).
  exists l, w2. split; [exact H1|]. split; [exact H2|]. by rewrite H3.
Defined.

(** X19: a class statement cannot be run twice.  Whatever the first run
    did, running the same statement again raises a [ValueError], for the
    invalid name or for the duplicate, and changes nothing; after a first
    run that returned, the message names the class itself as the one
    already registered. *)
Theorem X19_declare_twice_raises {Config Attrs : Type}
    (w : world Config Attrs) (c : pyclass Config Attrs) :
  (exists e, declare c (declare c w).2 = (Raise e, (declare c w).2) /\
     (InvalidPatternName e \/ DuplicatePattern e)) /\
  ((declare c w).1 = Ok tt ->
   declare c (declare c w).2 =
     (Raise (ValueError (msg_duplicate (cls_name c) (cls_name c))),
      (declare c w).2)).
Proof.
  destruct (declare_cases c w) as [(Heq & Hnone & s & Hn & Hs)|(e & Heq & He)].
  - assert (Hsecond : declare c (declare c w).2 =
      (Raise (ValueError (msg_duplicate (cls_name c) (cls_name c))),
       (declare c w).2)).
    { rewrite Heq. simpl. rewrite (declare_valid_name c s _ Hn Hs).
      unfold register. simpl. by rewrite lookup_insert_eq. }
    split; [|done]. eexists. split; [exact Hsecond|]. right. by eexists _, _.
  - rewrite Heq. simpl. split; [|done]. exists e. by rewrite Heq.
Qed.

Lemma X19_declare_twice_raises_witness :
  (declare Foo empty_world).1 = Ok tt /\
  (declare Foo (declare Foo empty_world).2).1
    = Raise (ValueError (msg_duplicate "Foo" "Foo")).
Proof.
  split; [reflexivity|].
  destruct (X19_declare_twice_raises empty_world Foo) as [_ H].
  by rewrite (H eq_refl).
Defined.

End PatternExtra.
